(** * Convolution2D (keras-js): a shallow embedding of
      [src/layers/convolutional/Convolution2D.js] and its verification.

    The layer turns a 2-D convolution into a dense matrix product:
    output-shape arithmetic, zero padding, im2col, the cached filter matrix,
    a matrix multiply on one of two backends, and the re-assembly of the
    product into a feature map.

    Conventions of the embedding.
    - JavaScript integers (shapes, strides, offsets, loop counters) are [Z].
    - A [Float32Array] is a [list f32] living in a store of buffers, so two
      views can share one buffer.  Finite float values are represented by
      exact integers, and [NaN] is what a typed array stores when it is
      handed [undefined]; rounding is outside the model.
    - [Tensor] wrapper objects live in a second store; a wrapper is mutated
      by rebinding its [tensor] field, as the source does.
    - Methods are written in a state-and-error monad over the two stores. *)

From stdpp Require Import base option list list_numbers strings.
From Stdlib Require Import ZArith Lia.

Local Open Scope Z_scope.

(** ** Float payload *)

Inductive f32 : Type :=
  | Num (z : Z)
  | NaN.

Global Instance f32_eq_dec : EqDecision f32.
Proof. solve_decision. Defined.

Global Instance f32_inhabited : Inhabited f32 := populate NaN.

Definition fadd (a b : f32) : f32 :=
  match a, b with
  | Num x, Num y => Num (x + y)
  | _, _ => NaN
  end.

Definition fmul (a b : f32) : f32 :=
  match a, b with
  | Num x, Num y => Num (x * y)
  | _, _ => NaN
  end.

(** ** Typed arrays *)

(** [data[k]] on a typed array: [undefined] outside [0 .. length-1], which
    every numeric use turns into [NaN]. *)
Definition buf_get (b : list f32) (k : Z) : f32 :=
  if bool_decide (0 ≤ k) then default NaN (b !! Z.to_nat k) else NaN.

(** [data[k] = v] on a typed array: ignored outside [0 .. length-1]. *)
Definition buf_set (b : list f32) (k : Z) (v : f32) : list f32 :=
  if bool_decide (0 ≤ k) then <[Z.to_nat k := v]> b else b.

(** [new Float32Array(n)] *)
Definition zeros (n : Z) : list f32 := replicate (Z.to_nat n) (Num 0).

(** ** ndarray views *)

Abbreviation loc := nat (only parsing).
Abbreviation tref := nat (only parsing).

(** The four fields of an [ndarray] view; [data] names a buffer of the store. *)
Record ndarray : Type := Ndarray {
  data : loc;
  shape : list Z;
  stride : list Z;
  offset : Z
}.

Global Instance ndarray_eq_dec : EqDecision ndarray.
Proof. solve_decision. Defined.

(** Row-major strides of a shape: the last axis is the fastest. *)
Fixpoint row_major (sh : list Z) : list Z :=
  match sh with
  | [] => []
  | _ :: rest => foldr Z.mul 1 rest :: row_major rest
  end.

(** [ndarray(data, shape)] *)
Definition ndarray_of (d : loc) (sh : list Z) : ndarray :=
  {| data := d; shape := sh; stride := row_major sh; offset := 0 |}.

Fixpoint dot (st idx : list Z) : Z :=
  match st, idx with
  | s :: st', i :: idx' => s * i + dot st' idx'
  | _, _ => 0
  end.

(** [view.index(i0, i1, ...)] *)
Definition index (v : ndarray) (idx : list Z) : Z := offset v + dot (stride v) idx.

(** [view.hi(i0, i1, ...)]: a bound that is negative keeps the axis. *)
Fixpoint hi_shape (sh idx : list Z) : list Z :=
  match sh, idx with
  | a :: sh', i :: idx' => (if bool_decide (0 ≤ i) then i else a) :: hi_shape sh' idx'
  | _, _ => sh
  end.

Definition hi (v : ndarray) (idx : list Z) : ndarray :=
  {| data := data v; shape := hi_shape (shape v) idx;
     stride := stride v; offset := offset v |}.

(** [view.lo(i0, i1, ...)]: shifts the origin and shrinks the axes. *)
Fixpoint lo_shape (sh idx : list Z) : list Z :=
  match sh, idx with
  | a :: sh', i :: idx' => (if bool_decide (0 ≤ i) then a - i else a) :: lo_shape sh' idx'
  | _, _ => sh
  end.

Fixpoint lo_offset (st idx : list Z) : Z :=
  match st, idx with
  | c :: st', i :: idx' => (if bool_decide (0 ≤ i) then c * i else 0) + lo_offset st' idx'
  | _, _ => 0
  end.

Definition lo (v : ndarray) (idx : list Z) : ndarray :=
  {| data := data v; shape := lo_shape (shape v) idx;
     stride := stride v; offset := offset v + lo_offset (stride v) idx |}.

(** [view.pick(p0, p1, ...)]: [None] is the source's [null] and keeps the
    axis; a non-negative number fixes the axis and drops it. *)
Fixpoint pick_keep {A} (l : list A) (sel : list (option Z)) : list A :=
  match l, sel with
  | a :: l', None :: sel' => a :: pick_keep l' sel'
  | a :: l', Some i :: sel' =>
      if bool_decide (0 ≤ i) then pick_keep l' sel' else a :: pick_keep l' sel'
  | _, _ => l
  end.

Fixpoint pick_offset (st : list Z) (sel : list (option Z)) : Z :=
  match st, sel with
  | c :: st', Some i :: sel' =>
      (if bool_decide (0 ≤ i) then c * i else 0) + pick_offset st' sel'
  | _ :: st', None :: sel' => pick_offset st' sel'
  | _, _ => 0
  end.

Definition pick (v : ndarray) (sel : list (option Z)) : ndarray :=
  {| data := data v; shape := pick_keep (shape v) sel;
     stride := pick_keep (stride v) sel;
     offset := offset v + pick_offset (stride v) sel |}.

(** [view.transpose(a0, a1, ...)]: axis [i] of the result is axis [a_i]. *)
Definition transpose (v : ndarray) (axes : list nat) : ndarray :=
  {| data := data v;
     shape := (λ a, default 0 (shape v !! a)) <$> axes;
     stride := (λ a, default 0 (stride v !! a)) <$> axes;
     offset := offset v |}.

(** All multi-indices of a shape, last axis fastest. *)
Fixpoint indices (sh : list Z) : list (list Z) :=
  match sh with
  | [] => [[]]
  | n :: rest => i ← seqZ 0 n; (cons i) <$> indices rest
  end.

(** ** The two stores *)

(** A [Tensor] wrapper: the view it currently holds and the flag the
    accelerated backend is keyed on. *)
Record TensorObj : Type := TensorObj_mk {
  tensor : ndarray;
  _useWeblas : bool
}.

(** Calls that leave the JavaScript heap: which matrix product ran, and
    each run of the filter-matrix builder. *)
Inductive Event : Type :=
  | EvW2row
  | EvGemm
  | EvSgemm.

Global Instance Event_eq_dec : EqDecision Event.
Proof. solve_decision. Defined.

Record World : Type := World_mk {
  bufs : list (list f32);
  tens : list TensorObj;
  log : list Event
}.

Definition set_bufs (w : World) (bs : list (list f32)) : World :=
  {| bufs := bs; tens := tens w; log := log w |}.

Definition set_tens (w : World) (ts : list TensorObj) : World :=
  {| bufs := bufs w; tens := ts; log := log w |}.

Definition emit (e : Event) (w : World) : World :=
  {| bufs := bufs w; tens := tens w; log := log w ++ [e] |}.

(** The contents of a buffer; a location that was never allocated reads as
    the empty array. *)
Definition buf_of (w : World) (d : loc) : list f32 := default [] (bufs w !! d).

(** [view.get(i0, i1, ...)] *)
Definition nd_get (w : World) (v : ndarray) (idx : list Z) : f32 :=
  buf_get (buf_of w (data v)) (index v idx).

(** [view.set(i0, i1, ..., x)] *)
Definition nd_set (w : World) (v : ndarray) (idx : list Z) (x : f32) : World :=
  set_bufs w (<[data v := buf_set (buf_of w (data v)) (index v idx) x]> (bufs w)).

(** ** The state-and-error monad *)

(** Outcomes of running a method.  [Throw] is a JavaScript exception,
    [Diverge] a loop that does not stop, and [Stuck] an input on which the
    source computes with [undefined], [Infinity] or a non-integer, which the
    integer model does not follow. *)
Inductive Res (A : Type) : Type :=
  | Ok (a : A)
  | Throw (msg : string)
  | Diverge
  | Stuck.
Global Arguments Ok {A} a.
Global Arguments Throw {A} msg.
Global Arguments Diverge {A}.
Global Arguments Stuck {A}.

Definition M (A : Type) : Type := World → Res (A * World).

Global Instance M_ret : MRet M := λ A a w, Ok (a, w).

Global Instance M_bind : MBind M := λ A B k c w,
  match c w with
  | Ok (a, w') => k a w'
  | Throw msg => Throw msg
  | Diverge => Diverge
  | Stuck => Stuck
  end.

Definition throw {A} (msg : string) : M A := λ _, Throw msg.
Definition stuck {A} : M A := λ _, Stuck.
Definition diverge {A} : M A := λ _, Diverge.

(** Apply a store transformer. *)
Definition modify (f : World → World) : M unit := λ w, Ok (tt, f w).

(** Read a property that may still be [undefined]; using [undefined] as an
    object is a [TypeError]. *)
Definition defined {A} (o : option A) : M A :=
  match o with
  | Some a => mret a
  | None => throw "TypeError"
  end.

(** Division under [Math.floor]; a zero divisor leaves the integers. *)
Definition floor_div (a b : Z) : M Z :=
  if bool_decide (b = 0) then stuck else mret (a / b).

(** [for (const a of l) body(a)] *)
Fixpoint for_each {A} (l : list A) (body : A → M unit) : M unit :=
  match l with
  | [] => mret tt
  | a :: l' => _ ← body a; for_each l' body
  end.

(** [for (let i = i0; i <= limit; i += step) st = body(i, st)].  The fuel
    bounds the number of iterations; it runs out only if the loop does not
    advance. *)
Fixpoint for_step {St} (fuel : nat) (i limit step : Z)
    (body : Z → St → M St) (st : St) : M St :=
  if bool_decide (i ≤ limit) then
    match fuel with
    | O => diverge
    | S fuel' => st' ← body i st; for_step fuel' (i + step) limit step body st'
    end
  else mret st.

(** ** Tensor wrappers *)

Definition get_obj (x : tref) : M TensorObj := λ w,
  match tens w !! x with
  | Some o => Ok (o, w)
  | None => Stuck
  end.

(** [x.tensor] *)
Definition get_tensor (x : tref) : M ndarray := o ← get_obj x; mret (tensor o).

(** [x.tensor = v] *)
Definition set_tensor (x : tref) (v : ndarray) : M unit := λ w,
  match tens w !! x with
  | Some o =>
      Ok (tt, set_tens w (<[x := {| tensor := v; _useWeblas := _useWeblas o |}]> (tens w)))
  | None => Stuck
  end.

(** Modelled from the spec: the [Tensor] class ([src/Tensor.js] is not part
    of the sources at hand).  A tensor is a shape over a flat, contiguous,
    row-major buffer of floats; [new Tensor([], shape)] allocates the buffer
    zero-initialised.  A typed array cannot have a negative length. *)
Definition new_Tensor (sh : list Z) : M tref := λ w,
  let n := foldr Z.mul 1 sh in
  if bool_decide (n < 0) then Throw "RangeError"
  else
    Ok (length (tens w),
        {| bufs := bufs w ++ [zeros n];
           tens := tens w ++ [{| tensor := ndarray_of (length (bufs w)) sh;
                                 _useWeblas := false |}];
           log := log w |}).

(** Modelled from the spec: [t.replaceTensorData(data)] makes the given
    typed array the tensor's buffer, keeping shape, strides and offset; the
    buffer is shared, not copied. *)
Definition replaceTensorData (t : tref) (d : loc) : M unit :=
  v ← get_tensor t;
  set_tensor t {| data := d; shape := shape v; stride := stride v; offset := offset v |}.

(** ** ndarray-ops, ndarray-gemm and weblas *)

(** [ops.assign(dst, src)]: element-wise copy over the shape of [dst]. *)
Definition ops_assign (dst src : ndarray) : M unit :=
  modify (λ w, foldl (λ w' idx, nd_set w' dst idx (nd_get w' src idx)) w (indices (shape dst))).

(** [ops.assigns(dst, x)]: fill [dst] with the scalar [x]. *)
Definition ops_assigns (dst : ndarray) (x : f32) : M unit :=
  modify (λ w, foldl (λ w' idx, nd_set w' dst idx x) w (indices (shape dst))).

Definition fsum (l : list f32) : f32 := foldr fadd (Num 0) l.

(** [gemm(c, a, b, alpha, beta)]: [c = alpha * a * b + beta * c], with [c]
    of shape [P, F], [a] of shape [P, K] and [b] of shape [K, F]. *)
Definition gemm_cell (w : World) (a b : ndarray) (p f : Z) : f32 :=
  fsum ((λ k, fmul (nd_get w a [p; k]) (nd_get w b [k; f]))
          <$> seqZ 0 (default 0 (shape a !! 1%nat))).

Definition gemm (c a b : ndarray) (alpha beta : f32) : M unit :=
  modify (λ w,
    emit EvGemm
      (foldl (λ w' idx,
         match idx with
         | [p; f] =>
             nd_set w' c idx
               (fadd (fmul alpha (gemm_cell w a b p f)) (fmul beta (nd_get w' c idx)))
         | _ => w'
         end) w (indices (shape c)))).

(** [weblas.sgemm(M, N, K, alpha, A, B, beta, C)]: the product of the
    row-major [M] by [K] array [A] and [K] by [N] array [B], scaled, plus
    the scaled row vector [C]; the result is a new row-major array. *)
Definition sgemm (m n k : Z) (alpha : f32) (A B : list f32) (beta : f32)
    (C : list f32) : list f32 :=
  idx ← indices [m; n];
  match idx with
  | [p; f] =>
      [fadd (fmul alpha
               (fsum ((λ t, fmul (buf_get A (p * k + t)) (buf_get B (t * n + f)))
                        <$> seqZ 0 k)))
            (fmul beta (buf_get C f))]
  | _ => []
  end.

(** The call of the accelerated backend: its result is a new typed array. *)
Definition weblas_sgemm (m n k : Z) (alpha : f32) (A B : list f32) (beta : f32)
    (C : list f32) : M loc := λ w,
  Ok (length (bufs w),
      emit EvSgemm (set_bufs w (bufs w ++ [sgemm m n k alpha A B beta C]))).

(** [view.data], read as the current contents of the buffer. *)
Definition read_buf (d : loc) : M (list f32) := λ w, Ok (buf_of w d, w).

(** [view.get(i0, ...)] as a step of a method. *)
Definition read_at (v : ndarray) (idx : list Z) : M f32 := λ w, Ok (nd_get w v idx, w).

(** ** Activations *)

(** An activation rewrites the values of the tensor it is given, in place. *)
Definition Activation : Type := list f32 → list f32.

(** Modelled from the spec: the activation named [linear] leaves the
    values as they are ([src/activations] is not part of the sources at
    hand; the table from names to functions is a parameter of the
    constructor). *)
Definition linear : Activation := λ b, b.

Definition apply_activation (act : Activation) (x : tref) : M unit :=
  v ← get_tensor x;
  modify (λ w, set_bufs w (<[data v := act (buf_of w (data v))]> (bufs w))).

(** ** The layer *)

(** The attribute object handed to the constructor; an absent property is
    [None] and takes the default of the destructuring pattern. *)
Record Attrs : Type := Attrs_mk {
  attr_name : option string;
  attr_nbFilter : option Z;
  attr_nbRow : option Z;
  attr_nbCol : option Z;
  attr_activation : option string;
  attr_borderMode : option string;
  attr_subsample : option (Z * Z);
  attr_dimOrdering : option string;
  attr_bias : option bool
}.

(** The instance fields of a [Convolution2D] object.  Fields that the
    constructor leaves [undefined] start as [None]. *)
Record Layer : Type := Layer_mk {
  name : option string;
  layerClass : string;
  kernelShape : Z * Z * Z;
  activation : option Activation;
  borderMode : string;
  subsample : Z * Z;
  dimOrdering : string;
  bias : bool;
  params : list string;
  weights_W : option tref;
  weights_b : option tref;
  _wRowsMat : option tref;
  outputShape : option (Z * Z * Z);
  inputPadding : option (Z * Z * Z * Z)
}.

(** [`${this.name}`] *)
Definition name_text (n : option string) : string := default "undefined" n.

(** [constructor (attrs = {})].  [activations] is the table of the
    activations module, from names to functions. *)
Definition constructor (activations : string → option Activation) (attrs : Attrs)
    : Res Layer :=
  let nbFilter := default 1 (attr_nbFilter attrs) in
  let nbRow := default 3 (attr_nbRow attrs) in
  let nbCol := default 3 (attr_nbCol attrs) in
  let activation := default "linear" (attr_activation attrs) in
  let borderMode := default "valid" (attr_borderMode attrs) in
  let subsample := default (1, 1) (attr_subsample attrs) in
  let dimOrdering := default "tf" (attr_dimOrdering attrs) in
  let bias := default true (attr_bias attrs) in
  if bool_decide (borderMode = "valid" ∨ borderMode = "same") then
    if bool_decide (dimOrdering = "tf" ∨ dimOrdering = "th") then
      Ok {| name := attr_name attrs;
            layerClass := "Convolution2D";
            kernelShape := (nbFilter, nbRow, nbCol);
            activation := activations activation;
            borderMode := borderMode;
            subsample := subsample;
            dimOrdering := dimOrdering;
            bias := bias;
            params := if bias then ["W"; "b"] else ["W"];
            weights_W := None;
            weights_b := None;
            _wRowsMat := None;
            outputShape := None;
            inputPadding := None |}
    else
      Throw (name_text (attr_name attrs)
             +:+ " [Convolution2D layer] Only tf and th dim ordering are allowed.")
  else
    Throw (name_text (attr_name attrs) +:+ " [Convolution2D layer] Invalid borderMode.").

Definition set_weights (this : Layer) (W b : option tref) : Layer :=
  {| name := name this; layerClass := layerClass this;
     kernelShape := kernelShape this; activation := activation this;
     borderMode := borderMode this; subsample := subsample this;
     dimOrdering := dimOrdering this; bias := bias this; params := params this;
     weights_W := W; weights_b := b;
     _wRowsMat := _wRowsMat this;
     outputShape := outputShape this; inputPadding := inputPadding this |}.

Definition set_wRowsMat (this : Layer) (m : option tref) : Layer :=
  {| name := name this; layerClass := layerClass this;
     kernelShape := kernelShape this; activation := activation this;
     borderMode := borderMode this; subsample := subsample this;
     dimOrdering := dimOrdering this; bias := bias this; params := params this;
     weights_W := weights_W this; weights_b := weights_b this;
     _wRowsMat := m;
     outputShape := outputShape this; inputPadding := inputPadding this |}.

Definition set_geometry (this : Layer) (os : Z * Z * Z) (pad : Z * Z * Z * Z) : Layer :=
  {| name := name this; layerClass := layerClass this;
     kernelShape := kernelShape this; activation := activation this;
     borderMode := borderMode this; subsample := subsample this;
     dimOrdering := dimOrdering this; bias := bias this; params := params this;
     weights_W := weights_W this; weights_b := weights_b this;
     _wRowsMat := _wRowsMat this;
     outputShape := Some os; inputPadding := Some pad |}.

(** [shape[k]] of a view, when the view has that axis. *)
Definition shape_at (v : ndarray) (k : nat) : M Z :=
  match shape v !! k with
  | Some n => mret n
  | None => stuck
  end.

(** [_w2row ()]: one column of the filter matrix per filter. *)
Definition _w2row (this : Layer) : M tref :=
  W ← defined (weights_W this);
  Wt ← get_tensor W;
  inputChannels ← shape_at Wt 2;
  let '(nbFilter, nbRow, nbCol) := kernelShape this in
  let patchLen := nbRow * nbCol * inputChannels in
  wRowsMat ← new_Tensor [patchLen; nbFilter];
  patch ← new_Tensor [nbRow; nbCol; inputChannels];
  patchRaveled ← new_Tensor [patchLen];
  _ ← for_each (seqZ 0 nbFilter) (λ n,
        pt ← get_tensor patch;
        Wt ← get_tensor W;
        _ ← ops_assign pt (pick Wt [None; None; None; Some n]);
        pt ← get_tensor patch;
        _ ← replaceTensorData patchRaveled (data pt);
        wt ← get_tensor wRowsMat;
        prt ← get_tensor patchRaveled;
        ops_assign (pick wt [None; Some n]) prt);
  _ ← modify (emit EvW2row);
  mret wRowsMat.

(** Modelled from the spec: [super.setWeights(weightsArr)] of the [Layer]
    base class ([src/Layer.js] is not part of the sources at hand) binds the
    ordered list of weight tensors to the names in [params]. *)
Definition super_setWeights (this : Layer) (weightsArr : list tref) : Layer :=
  set_weights this (weightsArr !! 0%nat)
    (if bias this then weightsArr !! 1%nat else weights_b this).

(** [setWeights (weightsArr)] *)
Definition setWeights (this : Layer) (weightsArr : list tref) : M Layer :=
  _ ← (if bool_decide (dimOrdering this = "th") then
         W0 ← defined (weightsArr !! 0%nat);
         t ← get_tensor W0;
         set_tensor W0 (transpose t [2; 3; 1; 0]%nat)
       else mret tt);
  let this := super_setWeights this weightsArr in
  m ← _w2row this;
  mret (set_wRowsMat this (Some m)).

(** [_calcOutputShape (x)] *)
Definition _calcOutputShape (this : Layer) (x : tref) : M Layer :=
  xt ← get_tensor x;
  inputRows ← shape_at xt 0;
  inputCols ← shape_at xt 1;
  let '(nbFilter, nbRow, nbCol) := kernelShape this in
  let '(s0, s1) := subsample this in
  outputRows ←
    (if bool_decide (borderMode this = "same")
     then floor_div (inputRows + s0 - 1) s0
     else floor_div (inputRows - nbRow + s0) s0);
  outputCols ←
    (if bool_decide (borderMode this = "same")
     then floor_div (inputCols + s1 - 1) s1
     else floor_div (inputCols - nbCol + s1) s1);
  let outputChannels := nbFilter in
  let paddingRow :=
    if bool_decide (borderMode this = "same")
    then Z.max 0 ((outputRows - 1) * s0 + nbRow - inputRows)
    else 0 in
  let paddingCol :=
    if bool_decide (borderMode this = "same")
    then Z.max 0 ((outputCols - 1) * s1 + nbCol - inputCols)
    else 0 in
  let paddingRowBefore := paddingRow / 2 in
  let paddingRowAfter := paddingRow - paddingRowBefore in
  let paddingColBefore := paddingCol / 2 in
  let paddingColAfter := paddingCol - paddingColBefore in
  mret (set_geometry this (outputRows, outputCols, outputChannels)
          (paddingRowBefore, paddingRowAfter, paddingColBefore, paddingColAfter)).

(** [_padInput (x)] *)
Definition _padInput (this : Layer) (x : tref) : M tref :=
  if bool_decide (borderMode this = "same") then
    xt ← get_tensor x;
    match shape xt with
    | inputRows :: inputCols :: inputChannels :: _ =>
        '(paddingRowBefore, paddingRowAfter, paddingColBefore, paddingColAfter)
          ← defined (inputPadding this);
        let newRows := inputRows + paddingRowBefore + paddingRowAfter in
        let newCols := inputCols + paddingColBefore + paddingColAfter in
        _x ← new_Tensor [newRows; newCols; inputChannels];
        _xt ← get_tensor _x;
        xt ← get_tensor x;
        _ ← ops_assign
              (lo (hi _xt [inputRows + paddingRowBefore; inputCols + paddingColBefore;
                           inputChannels])
                  [paddingRowBefore; paddingColBefore; 0])
              xt;
        _xt ← get_tensor _x;
        _ ← set_tensor x _xt;
        mret x
    | _ => stuck
    end
  else mret x.

(** [_im2col (x)]: one row of the patch matrix per window position. *)
Definition _im2col (this : Layer) (x : tref) : M tref :=
  xt ← get_tensor x;
  match shape xt with
  | inputRows :: inputCols :: inputChannels :: _ =>
      let '(_, nbRow, nbCol) := kernelShape this in
      '(outputRows, outputCols, _) ← defined (outputShape this);
      let nbPatches := outputRows * outputCols in
      let patchLen := nbRow * nbCol * inputChannels in
      imColsMat ← new_Tensor [nbPatches; patchLen];
      patch ← new_Tensor [nbRow; nbCol; inputChannels];
      patchRaveled ← new_Tensor [patchLen];
      _ ← for_step (Z.to_nat (inputRows - nbRow + 1)) 0 (inputRows - nbRow)
            (subsample this).1
            (λ i n,
               for_step (Z.to_nat (inputCols - nbCol + 1)) 0 (inputCols - nbCol)
                 (subsample this).2
                 (λ j n,
                    pt ← get_tensor patch;
                    xt ← get_tensor x;
                    _ ← ops_assign pt
                          (lo (hi xt [i + nbRow; j + nbCol; inputChannels]) [i; j; 0]);
                    pt ← get_tensor patch;
                    _ ← replaceTensorData patchRaveled (data pt);
                    imt ← get_tensor imColsMat;
                    prt ← get_tensor patchRaveled;
                    _ ← ops_assign (pick imt [Some n; None]) prt;
                    mret (n + 1))
                 n)
            0;
      mret imColsMat
  | _ => stuck
  end.

(** [call (x)].  The timing calls and the console output around each phase
    do not touch the stores and are left out. *)
Definition call (this : Layer) (x : tref) : M (tref * Layer) :=
  _ ← (if bool_decide (dimOrdering this = "th") then
         xt ← get_tensor x;
         set_tensor x (transpose xt [1; 2; 0]%nat)
       else mret tt);
  this ← _calcOutputShape this x;
  _ ← _padInput this x;
  imColsMat ← _im2col this x;
  wRowsMat ← defined (_wRowsMat this);
  let nbFilter := (kernelShape this).1.1 in
  '(outputRows, outputCols, outputChannels) ← defined (outputShape this);
  let nbPatches := outputRows * outputCols in
  matMul ← new_Tensor [nbPatches; nbFilter];
  _ ← (if bias this then
         for_each (seqZ 0 nbFilter) (λ n,
           mt ← get_tensor matMul;
           b ← defined (weights_b this);
           bt ← get_tensor b;
           bn ← read_at bt [n];
           ops_assigns (pick mt [None; Some n]) bn)
       else mret tt);
  xo ← get_obj x;
  _ ← (if _useWeblas xo then
         biasData ←
           (if bias this then
              b ← defined (weights_b this);
              bt ← get_tensor b;
              read_buf (data bt)
            else
              wt ← get_tensor wRowsMat;
              n ← shape_at wt 1;
              mret (zeros n));
         imt ← get_tensor imColsMat;
         wt ← get_tensor wRowsMat;
         m ← shape_at imt 0;
         n ← shape_at wt 1;
         k ← shape_at imt 1;
         A ← read_buf (data imt);
         B ← read_buf (data wt);
         d ← weblas_sgemm m n k (Num 1) A B (Num 1) biasData;
         replaceTensorData matMul d
       else
         mt ← get_tensor matMul;
         imt ← get_tensor imColsMat;
         wt ← get_tensor wRowsMat;
         gemm mt imt wt (Num 1) (Num 1));
  output ← new_Tensor [outputRows; outputCols; outputChannels];
  outputChannelRaveled ← new_Tensor [outputRows * outputCols];
  outputChannel ← new_Tensor [outputRows; outputCols];
  _ ← for_each (seqZ 0 nbFilter) (λ n,
        rt ← get_tensor outputChannelRaveled;
        mt ← get_tensor matMul;
        _ ← ops_assign rt (pick mt [None; Some n]);
        rt ← get_tensor outputChannelRaveled;
        _ ← replaceTensorData outputChannel (data rt);
        ot ← get_tensor output;
        ct ← get_tensor outputChannel;
        ops_assign (pick ot [None; None; Some n]) ct);
  ot ← get_tensor output;
  _ ← set_tensor x ot;
  act ← defined (activation this);
  _ ← apply_activation act x;
  _ ← (if bool_decide (dimOrdering this = "th") then
         xt ← get_tensor x;
         set_tensor x (transpose xt [2; 0; 1]%nat)
       else mret tt);
  mret (x, this).

(** ** Reference definitions used by the statements *)

(** [ceil(a / b)] for a positive [b]. *)
Definition ceil_div (a b : Z) : Z := - ((- a) / b).

(** The configuration checks that the constructor performs. *)
Definition borderMode_ok (attrs : Attrs) : Prop :=
  default "valid" (attr_borderMode attrs) = "valid"
  ∨ default "valid" (attr_borderMode attrs) = "same".

Definition dimOrdering_ok (attrs : Attrs) : Prop :=
  default "tf" (attr_dimOrdering attrs) = "tf"
  ∨ default "tf" (attr_dimOrdering attrs) = "th".

(** Attributes with every property absent. *)
Definition no_attrs : Attrs :=
  {| attr_name := None; attr_nbFilter := None; attr_nbRow := None;
     attr_nbCol := None; attr_activation := None; attr_borderMode := None;
     attr_subsample := None; attr_dimOrdering := None; attr_bias := None |}.

(** A table of activations that knows [linear] only. *)
Definition linear_only (n : string) : option Activation :=
  if bool_decide (n = "linear") then Some linear else None.

(** A wrapper over a whole row-major buffer. *)
Definition plain_tensor (d : loc) (sh : list Z) (flag : bool) : TensorObj :=
  {| tensor := ndarray_of d sh; _useWeblas := flag |}.

(** The store of the worked example: wrapper 0 is the 5 by 5 by 1 input
    holding 0 .. 24, wrapper 1 the 3 by 3 by 1 by 1 kernel of ones, wrapper
    2 the bias [0]. *)
Definition example_world (flag : bool) : World :=
  {| bufs := [Num <$> seqZ 0 25; replicate 9 (Num 1); [Num 0]];
     tens := [plain_tensor 0 [5; 5; 1] flag; plain_tensor 1 [3; 3; 1; 1] false;
              plain_tensor 2 [1] false];
     log := [] |}.

(** Construct, load the weights, run once. *)
Definition run_layer (activations : string → option Activation) (attrs : Attrs)
    (weightsArr : list tref) (x : tref) (w : World) : Res (tref * Layer * World) :=
  match constructor activations attrs with
  | Ok this =>
      match setWeights this weightsArr w with
      | Ok (this, w1) => call this x w1
      | Throw msg => Throw msg
      | Diverge => Diverge
      | Stuck => Stuck
      end
  | Throw msg => Throw msg
  | Diverge => Diverge
  | Stuck => Stuck
  end.

(** The sum of the 3 by 3 neighbourhood of the 5 by 5 input [0 .. 24] whose
    top-left corner is [(i, j)]. *)
Definition neighbourhood_sum (i j : Z) : Z :=
  foldr Z.add 0 (di ← seqZ 0 3; dj ← seqZ 0 3; [5 * (i + di) + (j + dj)]).

(** ** Specifications of methods *)

(** [wp E c Q w]: the run of [c] from the stores [w] ends normally with a
    result and stores that satisfy [Q]; a run that does not end normally
    is accepted exactly when [E] holds. *)
Definition wp {A} (E : Prop) (c : M A) (Q : A → World → Prop) (w : World) : Prop :=
  match c w with
  | Ok (a, w') => Q a w'
  | _ => E
  end.

(** [ext x evs w w']: the stores [w'] come from [w] by allocating buffers
    and wrappers, writing to the new buffers only, rebinding the view of
    no old wrapper but [x], and logging [evs]. *)
Record ext (x : tref) (evs : list Event) (w w' : World) : Prop := Ext {
  ext_bufs : ∀ d, (d < length (bufs w))%nat → bufs w' !! d = bufs w !! d;
  ext_tens : ∀ t, (t < length (tens w))%nat → t ≠ x → tens w' !! t = tens w !! t;
  ext_flag : ∀ o, tens w !! x = Some o →
             ∃ o', tens w' !! x = Some o' ∧ _useWeblas o' = _useWeblas o;
  ext_nbufs : (length (bufs w) ≤ length (bufs w'))%nat;
  ext_ntens : (length (tens w) ≤ length (tens w'))%nat;
  ext_new : ∀ t o, (length (tens w) ≤ t)%nat → tens w' !! t = Some o →
            (length (bufs w) ≤ data (tensor o))%nat;
  ext_log : log w' = log w ++ evs
}.

(** The stores after [new Tensor([], sh)]. *)
Definition alloc_world (sh : list Z) (w : World) : World :=
  {| bufs := bufs w ++ [zeros (foldr Z.mul 1 sh)];
     tens := tens w ++ [{| tensor := ndarray_of (length (bufs w)) sh;
                           _useWeblas := false |}];
     log := log w |}.

(** The stores after [ops.assign(dst, src)]. *)
Definition assign_world (dst src : ndarray) (w : World) : World :=
  foldl (λ w' idx, nd_set w' dst idx (nd_get w' src idx)) w (indices (shape dst)).

(** The stores after [ops.assigns(dst, x)]. *)
Definition assigns_world (dst : ndarray) (x : f32) (w : World) : World :=
  foldl (λ w' idx, nd_set w' dst idx x) w (indices (shape dst)).


(** The layer of the worked example, as the constructor builds it from
    no attributes when [linear] is the identity. *)
Definition example_layer : Layer :=
  {| name := None; layerClass := "Convolution2D"; kernelShape := (1, 3, 3);
     activation := Some linear; borderMode := "valid"; subsample := (1, 1);
     dimOrdering := "tf"; bias := true; params := ["W"; "b"];
     weights_W := None; weights_b := None; _wRowsMat := None;
     outputShape := None; inputPadding := None |}.

(** The worked example after the weights are set. *)
Definition example_loaded (flag : bool) : option (Layer * World) :=
  match setWeights example_layer [1; 2]%nat (example_world flag) with
  | Ok p => Some p
  | _ => None
  end.

(** The buffer after a loop of writes: position [g idx] receives
    [f old idx], where [old] is what the position held just before. *)
Definition write_upd (g : list Z → Z) (f : f32 → list Z → f32)
    (idxs : list (list Z)) (b : list f32) : list f32 :=
  foldl (λ b' idx, buf_set b' (g idx) (f (buf_get b' (g idx)) idx)) b idxs.

(** Entry [(r, q, c)] of a 3-D view, and entry [(a, b, c, f)] of a 4-D one. *)
Definition get3 (w : World) (v : ndarray) (r q c : Z) : f32 := nd_get w v [r; q; c].
Definition get4 (w : World) (v : ndarray) (a b c f : Z) : f32 := nd_get w v [a; b; c; f].

(** The zero-padded extension of a feature map [X] of [H] rows and [W]
    columns, with [pT] rows added on top and [pL] columns on the left. *)
Definition padded (X : Z → Z → Z → f32) (H W pT pL : Z) (r q c : Z) : f32 :=
  if bool_decide (pT ≤ r < pT + H ∧ pL ≤ q < pL + W)
  then X (r - pT) (q - pL) c
  else Num 0.

(** The layer of the worked example in same mode, with the geometry that
    [_calcOutputShape] gives it on a 5 by 5 input. *)
Definition example_layer_same : Layer :=
  {| name := None; layerClass := "Convolution2D"; kernelShape := (1, 3, 3);
     activation := Some linear; borderMode := "same"; subsample := (1, 1);
     dimOrdering := "tf"; bias := true; params := ["W"; "b"];
     weights_W := None; weights_b := None; _wRowsMat := None;
     outputShape := Some (5, 5, 1); inputPadding := Some (1, 1, 1, 1) |}.

(** What the caller sees of a run: the returned wrapper and the stores. *)
Definition output_of (r : Res (tref * Layer * World)) : Res (tref * World) :=
  match r with
  | Ok (x, _, w) => Ok (x, w)
  | Throw msg => Throw msg
  | Diverge => Diverge
  | Stuck => Stuck
  end.

(** The attributes with the [bias] property set. *)
Definition attrs_with_bias (attrs : Attrs) (b : bool) : Attrs :=
  {| attr_name := attr_name attrs; attr_nbFilter := attr_nbFilter attrs;
     attr_nbRow := attr_nbRow attrs; attr_nbCol := attr_nbCol attrs;
     attr_activation := attr_activation attrs;
     attr_borderMode := attr_borderMode attrs;
     attr_subsample := attr_subsample attrs;
     attr_dimOrdering := attr_dimOrdering attrs; attr_bias := Some b |}.

(** The layer [this] with the bias switched on and bound to [b]. *)
Definition with_bias (this : Layer) (b : option tref) : Layer :=
  {| name := name this; layerClass := layerClass this;
     kernelShape := kernelShape this; activation := activation this;
     borderMode := borderMode this; subsample := subsample this;
     dimOrdering := dimOrdering this; bias := true; params := ["W"; "b"];
     weights_W := weights_W this; weights_b := b;
     _wRowsMat := _wRowsMat this;
     outputShape := outputShape this; inputPadding := inputPadding this |}.


(** The shape of a loop body of the source: copy a view of [s] into the
    tensor [p], make the buffer of [p] the buffer of [q], then go on with
    the views of [t] and [q]. *)
Definition via_temp {A} (p s q t : tref) (sv : ndarray → ndarray)
    (fin : ndarray → ndarray → M A) : M A :=
  pt ← get_tensor p;
  st ← get_tensor s;
  _ ← ops_assign pt (sv st);
  pt ← get_tensor p;
  _ ← replaceTensorData q (data pt);
  tt ← get_tensor t;
  qt ← get_tensor q;
  fin tt qt.

(** The number of rounds of [for (i = 0; i <= limit; i += step)]. *)
Definition rounds (limit step : Z) : Z :=
  if bool_decide (limit < 0) then 0 else limit / step + 1.

(** ** The phases of [call] *)

(** The middle of [call], cut at its three blocks so that each can be
    specified on its own; [call] is these blocks in sequence. *)

(** The product starts from the bias: column [n] of [matMul] is filled
    with [b[n]]. *)
Definition bias_fill (this : Layer) (matMul : tref) (nbFilter : Z) : M unit :=
  if bias this then
    for_each (seqZ 0 nbFilter) (λ n,
      mt ← get_tensor matMul;
      b ← defined (weights_b this);
      bt ← get_tensor b;
      bn ← read_at bt [n];
      ops_assigns (pick mt [None; Some n]) bn)
  else mret tt.

(** The matrix product, on the backend that the flag of the input selects. *)
Definition product (this : Layer) (flag : bool) (imColsMat wRowsMat matMul : tref) : M unit :=
  if flag then
    biasData ←
      (if bias this then
         b ← defined (weights_b this);
         bt ← get_tensor b;
         read_buf (data bt)
       else
         wt ← get_tensor wRowsMat;
         n ← shape_at wt 1;
         mret (zeros n));
    imt ← get_tensor imColsMat;
    wt ← get_tensor wRowsMat;
    m ← shape_at imt 0;
    n ← shape_at wt 1;
    k ← shape_at imt 1;
    A ← read_buf (data imt);
    B ← read_buf (data wt);
    d ← weblas_sgemm m n k (Num 1) A B (Num 1) biasData;
    replaceTensorData matMul d
  else
    mt ← get_tensor matMul;
    imt ← get_tensor imColsMat;
    wt ← get_tensor wRowsMat;
    gemm mt imt wt (Num 1) (Num 1).

(** The loop that builds the output, one filter at a time. *)
Definition assemble (outputChannelRaveled matMul outputChannel output : tref)
    (nbFilter : Z) : M unit :=
  for_each (seqZ 0 nbFilter) (λ n,
    via_temp outputChannelRaveled matMul outputChannel output
      (λ mt, pick mt [None; Some n])
      (λ ot ct, ops_assign (pick ot [None; None; Some n]) ct)).

(** The output size and the padding before the data along one axis, as
    functions of the border mode. *)
Definition out_size (mode : string) (n k s : Z) : Z :=
  if bool_decide (mode = "same") then ceil_div n s else (n - k + s) / s.

Definition pad_total (mode : string) (n k s : Z) : Z :=
  if bool_decide (mode = "same")
  then Z.max 0 ((out_size mode n k s - 1) * s + k - n)
  else 0.


(** ** Further examples *)

(** The layer of the worked example in channels-first order, and a store
    whose tensors are laid out for it: the input of shape [1, 5, 5], the
    kernel of shape [1, 1, 3, 3]. *)
Definition example_layer_th : Layer :=
  {| name := None; layerClass := "Convolution2D"; kernelShape := (1, 3, 3);
     activation := Some linear; borderMode := "valid"; subsample := (1, 1);
     dimOrdering := "th"; bias := true; params := ["W"; "b"];
     weights_W := None; weights_b := None; _wRowsMat := None;
     outputShape := None; inputPadding := None |}.

Definition example_world_th : World :=
  {| bufs := [Num <$> seqZ 0 25; Num <$> seqZ 1 9; [Num 0]];
     tens := [plain_tensor 0 [1; 5; 5] false; plain_tensor 1 [1; 1; 3; 3] false;
              plain_tensor 2 [1] false];
     log := [] |}.




(** * Properties *)

(** ** Basic algebra of the payload *)






(** ** Floor and ceiling *)

Lemma ceil_div_bounds a b : 0 < b → (ceil_div a b - 1) * b < a ≤ ceil_div a b * b.
Proof.
  intros Hb. unfold ceil_div.
  pose proof (Z.div_mod (- a) b ltac:(lia)) as E.
  pose proof (Z.mod_pos_bound (- a) b Hb) as R. nia.
Qed.

Lemma ceil_div_floor a b : 0 < b → (a + b - 1) / b = ceil_div a b.
Proof.
  intros Hb. pose proof (ceil_div_bounds a b Hb) as C.
  symmetry. apply (Z.div_unique_pos _ _ _ (a + b - 1 - ceil_div a b * b)); nia.
Qed.

(** ** Output shape and padding *)

(** C2.  With positive strides, [_calcOutputShape] succeeds and leaves the
    stores alone.  In valid mode the output has
    [floor((H - kernelRows + strideRows) / strideRows)] rows (columns alike)
    and the padding is [(0, 0, 0, 0)].  In same mode the output has
    [ceil(H / strideRows)] rows, the total row padding is
    [max(0, (outRows - 1) * strideRows + kernelRows - H)], the part before
    is its half rounded down and the part after is the rest, so an odd
    pixel goes after; columns alike. *)
Theorem calcOutputShape_geometry (this : Layer) (x : tref) (w : World)
    (xo : TensorObj) (H Wd F kR kC s0 s1 : Z) :
  tens w !! x = Some xo →
  shape (tensor xo) !! 0%nat = Some H →
  shape (tensor xo) !! 1%nat = Some Wd →
  kernelShape this = (F, kR, kC) →
  subsample this = (s0, s1) →
  0 < s0 → 0 < s1 →
  ∃ this',
    _calcOutputShape this x w = Ok (this', w)
    ∧ (borderMode this = "valid" →
         outputShape this' = Some ((H - kR + s0) / s0, (Wd - kC + s1) / s1, F)
         ∧ inputPadding this' = Some (0, 0, 0, 0))
    ∧ (borderMode this = "same" →
         let oR := ceil_div H s0 in
         let oC := ceil_div Wd s1 in
         let padR := Z.max 0 ((oR - 1) * s0 + kR - H) in
         let padC := Z.max 0 ((oC - 1) * s1 + kC - Wd) in
         outputShape this' = Some (oR, oC, F)
         ∧ inputPadding this'
           = Some (padR / 2, padR - padR / 2, padC / 2, padC - padC / 2)
         ∧ padR / 2 ≤ padR - padR / 2 ≤ padR / 2 + 1
         ∧ padC / 2 ≤ padC - padC / 2 ≤ padC / 2 + 1).
Proof.
  intros Hx H0 H1 Hk Hs Hs0 Hs1.
  unfold _calcOutputShape, get_tensor, get_obj, shape_at, floor_div, mbind, M_bind, mret, M_ret.
  rewrite Hx, H0, H1, Hk, Hs.
  rewrite !(bool_decide_eq_false_2 (_ = 0)) by lia.
  destruct (bool_decide (borderMode this = "same")) eqn:Hb.
  - apply bool_decide_eq_true_1 in Hb.
    eexists. split; [reflexivity|]. split.
    + intros Hv. rewrite Hv in Hb. discriminate.
    + intros _. cbn zeta. rewrite !ceil_div_floor by lia.
      split; [reflexivity|]. split; [reflexivity|].
      pose proof (Z.div_mod (Z.max 0 ((ceil_div H s0 - 1) * s0 + kR - H)) 2 ltac:(lia)).
      pose proof (Z.mod_pos_bound (Z.max 0 ((ceil_div H s0 - 1) * s0 + kR - H)) 2 ltac:(lia)).
      pose proof (Z.div_mod (Z.max 0 ((ceil_div Wd s1 - 1) * s1 + kC - Wd)) 2 ltac:(lia)).
      pose proof (Z.mod_pos_bound (Z.max 0 ((ceil_div Wd s1 - 1) * s1 + kC - Wd)) 2 ltac:(lia)).
      lia.
  - apply bool_decide_eq_false_1 in Hb.
    eexists. split; [reflexivity|]. split.
    + intros _. split; reflexivity.
    + intros Hsame. contradiction.
Qed.

Lemma calcOutputShape_geometry_witness :
  ∃ this',
    _calcOutputShape
      {| name := None; layerClass := "Convolution2D"; kernelShape := (2, 3, 3);
         activation := Some linear; borderMode := "same"; subsample := (2, 2);
         dimOrdering := "tf"; bias := true; params := ["W"; "b"];
         weights_W := None; weights_b := None; _wRowsMat := None;
         outputShape := None; inputPadding := None |}
      0%nat (example_world false) = Ok (this', example_world false)
    ∧ outputShape this' = Some (3, 3, 2)
    ∧ inputPadding this' = Some (1, 1, 1, 1).
Proof.
  destruct (calcOutputShape_geometry
    {| name := None; layerClass := "Convolution2D"; kernelShape := (2, 3, 3);
       activation := Some linear; borderMode := "same"; subsample := (2, 2);
       dimOrdering := "tf"; bias := true; params := ["W"; "b"];
       weights_W := None; weights_b := None; _wRowsMat := None;
       outputShape := None; inputPadding := None |}
    0%nat (example_world false) (plain_tensor 0 [5; 5; 1] false) 5 5 2 3 3 2 2
    eq_refl eq_refl eq_refl eq_refl eq_refl ltac:(lia) ltac:(lia))
    as (this' & Hrun & _ & Hsame).
  exists this'. split; [exact Hrun|].
  destruct (Hsame eq_refl) as (Hos & Hpad & _).
  split; [exact Hos | exact Hpad].
Defined.

(** ** Construction *)

(** C4, as the code has it.  The constructor checks [borderMode] and
    [dimOrdering] and nothing else: it throws exactly when one of the two
    is outside its set of names, with a message that names the layer and
    the attribute, and it returns a layer otherwise, whatever the filter
    count, the kernel size and the strides are. *)
Theorem constructor_checks (activations : string → option Activation) (attrs : Attrs) :
  (borderMode_ok attrs ∧ dimOrdering_ok attrs
     ↔ ∃ this, constructor activations attrs = Ok this)
  ∧ (¬ borderMode_ok attrs →
       constructor activations attrs
       = Throw (name_text (attr_name attrs) +:+ " [Convolution2D layer] Invalid borderMode."))
  ∧ (borderMode_ok attrs → ¬ dimOrdering_ok attrs →
       constructor activations attrs
       = Throw (name_text (attr_name attrs)
                +:+ " [Convolution2D layer] Only tf and th dim ordering are allowed.")).
Proof.
  unfold constructor, borderMode_ok, dimOrdering_ok.
  repeat split.
  - intros [Hb Hd]. rewrite (bool_decide_eq_true_2 _ Hb), (bool_decide_eq_true_2 _ Hd).
    eauto.
  - destruct (bool_decide _) eqn:Hb in H; [|destruct H; discriminate].
    by apply bool_decide_eq_true_1 in Hb.
  - destruct (bool_decide _) eqn:Hb in H; [|destruct H; discriminate].
    destruct (bool_decide _) eqn:Hd in H; [|destruct H; discriminate].
    by apply bool_decide_eq_true_1 in Hd.
  - intros Hb. by rewrite (bool_decide_eq_false_2 _ Hb).
  - intros Hb Hd.
    by rewrite (bool_decide_eq_true_2 _ Hb), (bool_decide_eq_false_2 _ Hd).
Qed.

(** C4, counterexample to the claim as stated: a filter count, a kernel
    size and strides that are all zero are accepted. *)
Lemma constructor_accepts_zero_sizes :
  let attrs :=
    {| attr_name := None; attr_nbFilter := Some 0; attr_nbRow := Some 0;
       attr_nbCol := Some 0; attr_activation := None; attr_borderMode := None;
       attr_subsample := Some (0, 0); attr_dimOrdering := None;
       attr_bias := None |} in
  default 1 (attr_nbFilter attrs) < 1
  ∧ ∃ this, constructor linear_only attrs = Ok this
            ∧ kernelShape this = (0, 0, 0) ∧ subsample this = (0, 0).
Proof. cbn. split; [lia|]. eexists. split; [reflexivity|]. split; reflexivity. Qed.

(** ** Axis order *)

(** C7.  On a 3-D view, [transpose(1, 2, 0)] (channels-first to
    channels-last, as at the entry of [call]) followed by
    [transpose(2, 0, 1)] (as at its exit) gives back the view: the same
    buffer, shape, strides and offset.  The first step reads entry
    [(c, i, j)] of the original at [(i, j, c)]. *)
Theorem transpose_round_trip (v : ndarray) :
  length (shape v) = 3%nat →
  length (stride v) = 3%nat →
  transpose (transpose v [1; 2; 0]%nat) [2; 0; 1]%nat = v
  ∧ ∀ w i j c, nd_get w (transpose v [1; 2; 0]%nat) [i; j; c] = nd_get w v [c; i; j].
Proof.
  destruct v as [d sh st o]. simpl. intros Hsh Hst.
  destruct sh as [|a [|b [|c [|? ?]]]]; try discriminate.
  destruct st as [|sa [|sb [|sc [|? ?]]]]; try discriminate.
  split; [reflexivity|].
  intros w i j k. unfold nd_get, index, transpose. simpl. f_equal. lia.
Qed.

Lemma transpose_round_trip_witness :
  transpose (transpose (ndarray_of 0 [2; 3; 4]) [1; 2; 0]%nat) [2; 0; 1]%nat
  = ndarray_of 0 [2; 3; 4]
  ∧ shape (transpose (ndarray_of 0 [2; 3; 4]) [1; 2; 0]%nat) = [3; 4; 2].
Proof.
  split.
  - exact (proj1 (transpose_round_trip (ndarray_of 0 [2; 3; 4]) eq_refl eq_refl)).
  - reflexivity.
Defined.

(** ** The worked example *)

(** C5.  Input 5 by 5 by 1 holding 0 .. 24, a 3 by 3 by 1 by 1 kernel of
    ones, bias 0, default attributes (stride 1, valid mode, linear
    activation): the call returns the input wrapper, now of shape
    [3, 3, 1], whose entry [(i, j, 0)] is the sum of the 3 by 3
    neighbourhood of the input at [(i, j)]; entry [(0, 0, 0)] is 54.  Both
    backends give this result. *)
Theorem example_5x5 (activations : string → option Activation) (flag : bool) :
  activations "linear" = Some linear →
  ∃ this w',
    run_layer activations no_attrs [1; 2]%nat 0%nat (example_world flag)
      = Ok (0%nat, this, w')
    ∧ ∃ out, tens w' !! 0%nat = Some out
        ∧ shape (tensor out) = [3; 3; 1]
        ∧ Forall (λ i, Forall (λ j,
            nd_get w' (tensor out) [i; j; 0] = Num (neighbourhood_sum i j))
            (seqZ 0 3)) (seqZ 0 3)
        ∧ nd_get w' (tensor out) [0; 0; 0] = Num 54.
Proof.
  intros Hlin. unfold run_layer, constructor. cbn [no_attrs attr_activation
    attr_borderMode attr_dimOrdering attr_nbFilter attr_nbRow attr_nbCol
    attr_subsample attr_bias attr_name default].
  rewrite Hlin.
  destruct flag; eexists _, _; (split; [vm_compute; reflexivity|]);
    eexists; (split; [vm_compute; reflexivity|]);
    (split; [vm_compute; reflexivity|]);
    (split; [|vm_compute; reflexivity]);
    (match goal with |- ?P => apply (@bool_decide_unpack P _) end);
    vm_compute; exact I.
Qed.

Lemma example_5x5_witness :
  ∃ this w',
    run_layer linear_only no_attrs [1; 2]%nat 0%nat (example_world false)
      = Ok (0%nat, this, w')
    ∧ ∃ out, tens w' !! 0%nat = Some out
        ∧ nd_get w' (tensor out) [0; 0; 0] = Num 54.
Proof.
  destruct (example_5x5 linear_only false eq_refl)
    as (this & w' & Hrun & out & Hout & _ & _ & H54).
  exists this, w'. split; [exact Hrun|]. exists out. split; [exact Hout | exact H54].
Defined.

(** ** Rules for running methods *)

Section wp_rules.
Context {A B : Type} (E : Prop).
Implicit Types (w : World).

Lemma wp_ret (a : A) (Q : A → World → Prop) w : Q a w → wp E (mret a) Q w.
Proof. done. Qed.

Lemma wp_bind (c : M A) (k : A → M B) (Q : B → World → Prop) w :
  wp E c (λ a w', wp E (k a) Q w') w → wp E (c ≫= k) Q w.
Proof.
  unfold wp. change ((c ≫= k) w) with
    (match c w with
     | Ok (a, w') => k a w'
     | Throw msg => Throw msg
     | Diverge => Diverge
     | Stuck => Stuck
     end).
  intros H. destruct (c w) as [[a w']| | |] eqn:Hc; done.
Qed.

Lemma wp_mono (c : M A) (Q Q' : A → World → Prop) w :
  (∀ a w', Q a w' → Q' a w') → wp E c Q w → wp E c Q' w.
Proof.
  unfold wp. intros HQ. destruct (c w) as [[a w']| | |]; auto.
Qed.

Lemma wp_defined (o : option A) (Q : A → World → Prop) w :
  (∀ a, o = Some a → Q a w) → (o = None → E) → wp E (defined o) Q w.
Proof. destruct o; unfold wp; simpl; auto. Qed.

Lemma wp_modify (f : World → World) (Q : unit → World → Prop) w :
  Q tt (f w) → wp E (modify f) Q w.
Proof. done. Qed.

Lemma wp_eq (c : M A) (Q : A → World → Prop) w a w' :
  c w = Ok (a, w') → Q a w' → wp E c Q w.
Proof. unfold wp. by intros ->. Qed.

Lemma wp_inv (c : M A) (Q : A → World → Prop) w a w' :
  wp E c Q w → c w = Ok (a, w') → Q a w'.
Proof. unfold wp. intros H Hc. by rewrite Hc in H. Qed.
End wp_rules.

Lemma wp_total {A} (c : M A) (Q : A → World → Prop) w :
  wp False c Q w → ∃ a w', c w = Ok (a, w') ∧ Q a w'.
Proof. unfold wp. destruct (c w) as [[a w']| | |]; [eauto|done..]. Qed.

Lemma wp_weaken {A} (E : Prop) (c : M A) (Q : A → World → Prop) w :
  wp False c Q w → wp E c Q w.
Proof. unfold wp. destruct (c w) as [[a w']| | |]; done. Qed.

Section wp_prims.
Context (E : Prop).
Implicit Types (w : World).

Lemma wp_get_obj (t : tref) (Q : TensorObj → World → Prop) w :
  (∀ o, tens w !! t = Some o → Q o w) → (tens w !! t = None → E) →
  wp E (get_obj t) Q w.
Proof. unfold wp, get_obj. destruct (tens w !! t); auto. Qed.

Lemma wp_get_tensor (t : tref) (Q : ndarray → World → Prop) w :
  (∀ o, tens w !! t = Some o → Q (tensor o) w) → (tens w !! t = None → E) →
  wp E (get_tensor t) Q w.
Proof.
  intros HQ HE. unfold get_tensor. apply wp_bind, wp_get_obj; [|done].
  intros o Ho. by apply wp_ret, HQ.
Qed.

Lemma wp_set_tensor (t : tref) (v : ndarray) (Q : unit → World → Prop) w :
  (∀ o, tens w !! t = Some o →
     Q tt (set_tens w (<[t := {| tensor := v; _useWeblas := _useWeblas o |}]> (tens w)))) →
  (tens w !! t = None → E) →
  wp E (set_tensor t v) Q w.
Proof. unfold wp, set_tensor. destruct (tens w !! t); auto. Qed.

Lemma wp_replaceTensorData (t : tref) (d : loc) (Q : unit → World → Prop) w :
  (∀ o, tens w !! t = Some o →
     Q tt (set_tens w
             (<[t := {| tensor := {| data := d; shape := shape (tensor o);
                                     stride := stride (tensor o);
                                     offset := offset (tensor o) |};
                        _useWeblas := _useWeblas o |}]> (tens w)))) →
  (tens w !! t = None → E) →
  wp E (replaceTensorData t d) Q w.
Proof.
  intros HQ HE. unfold replaceTensorData. apply wp_bind, wp_get_tensor; [|done].
  intros o Ho. apply wp_set_tensor; [|by rewrite Ho].
  intros o' Ho'. rewrite Ho in Ho'. injection Ho' as <-. by apply HQ.
Qed.

Lemma wp_shape_at (v : ndarray) (k : nat) (Q : Z → World → Prop) w :
  (∀ n, shape v !! k = Some n → Q n w) → (shape v !! k = None → E) →
  wp E (shape_at v k) Q w.
Proof. unfold wp, shape_at. destruct (shape v !! k); simpl; auto. Qed.

Lemma wp_floor_div (a b : Z) (Q : Z → World → Prop) w :
  (b ≠ 0 → Q (a / b) w) → (b = 0 → E) → wp E (floor_div a b) Q w.
Proof. unfold wp, floor_div. case_bool_decide; simpl; auto. Qed.

Lemma wp_new_Tensor (sh : list Z) (Q : tref → World → Prop) w :
  (0 ≤ foldr Z.mul 1 sh → Q (length (tens w)) (alloc_world sh w)) →
  (foldr Z.mul 1 sh < 0 → E) →
  wp E (new_Tensor sh) Q w.
Proof.
  unfold wp, new_Tensor. case_bool_decide; [auto|]. intros HQ _. apply HQ. lia.
Qed.

Lemma wp_ops_assign (dst src : ndarray) (Q : unit → World → Prop) w :
  Q tt (assign_world dst src w) → wp E (ops_assign dst src) Q w.
Proof. done. Qed.

Lemma wp_ops_assigns (dst : ndarray) (x : f32) (Q : unit → World → Prop) w :
  Q tt (assigns_world dst x w) → wp E (ops_assigns dst x) Q w.
Proof. done. Qed.

Lemma wp_read_buf (d : loc) (Q : list f32 → World → Prop) w :
  Q (buf_of w d) w → wp E (read_buf d) Q w.
Proof. done. Qed.

Lemma wp_read_at (v : ndarray) (idx : list Z) (Q : f32 → World → Prop) w :
  Q (nd_get w v idx) w → wp E (read_at v idx) Q w.
Proof. done. Qed.

Lemma wp_for_each {A} (I : World → Prop) (l : list A) (body : A → M unit)
    (Q : unit → World → Prop) w :
  I w →
  (∀ a w1, a ∈ l → I w1 → wp E (body a) (λ _ w2, I w2) w1) →
  (∀ w1, I w1 → Q tt w1) →
  wp E (for_each l body) Q w.
Proof.
  intros HI Hbody HQ. revert w HI.
  induction l as [|a l IH]; intros w HI; simpl.
  - by apply wp_ret, HQ.
  - apply wp_bind. eapply wp_mono; [|apply Hbody; [left|done]].
    intros ? w2 HI2. apply IH; [|done].
    intros a' w1 Ha'. apply Hbody. by right.
Qed.
End wp_prims.

(** A loop may run out of fuel, so this rule is for runs that are known
    to end. *)
Lemma wp_for_step {St} (I : St → World → Prop) (fuel : nat) (i limit step : Z)
    (body : Z → St → M St) (st : St) (Q : St → World → Prop) w :
  I st w →
  (∀ j st1 w1, I st1 w1 → wp True (body j st1) I w1) →
  (∀ st1 w1, I st1 w1 → Q st1 w1) →
  wp True (for_step fuel i limit step body st) Q w.
Proof.
  intros HI Hbody HQ. revert i st w HI.
  induction fuel as [|fuel IH]; intros i st w HI; simpl; case_bool_decide.
  - done.
  - by apply wp_ret, HQ.
  - apply wp_bind. eapply wp_mono; [|by apply Hbody].
    intros st' w' HI'. by apply IH.
  - by apply wp_ret, HQ.
Qed.

(** ** What a method may change *)

Lemma ext_refl x w : ext x [] w w.
Proof.
  constructor; try done.
  - intros o Ho. by exists o.
  - intros t o Ht Ho. apply lookup_lt_Some in Ho. lia.
  - by rewrite app_nil_r.
Qed.

Lemma ext_trans x e1 e2 w0 w1 w2 :
  (x < length (tens w0))%nat →
  ext x e1 w0 w1 → ext x e2 w1 w2 → ext x (e1 ++ e2) w0 w2.
Proof.
  intros Hx [B1 T1 F1 NB1 NT1 N1 L1] [B2 T2 F2 NB2 NT2 N2 L2].
  constructor.
  - intros d Hd. rewrite B2 by lia. by apply B1.
  - intros t Ht Hne. rewrite T2 by (done || lia). by apply T1.
  - intros o Ho. destruct (F1 o Ho) as (o1 & Ho1 & E1).
    destruct (F2 o1 Ho1) as (o2 & Ho2 & E2). exists o2. split; [done|congruence].
  - lia.
  - lia.
  - intros t o Ht Ho. destruct (decide (t < length (tens w1))%nat) as [Hlt|Hge].
    + rewrite T2 in Ho by (done || lia). by eapply N1.
    + pose proof (N2 t o ltac:(lia) Ho). lia.
  - by rewrite L2, L1, app_assoc.
Qed.

Lemma ext_alloc x evs w0 w sh :
  ext x evs w0 w → ext x evs w0 (alloc_world sh w).
Proof.
  intros [B T F NB NT N L]. constructor; simpl.
  - intros d Hd. rewrite lookup_app_l by lia. by apply B.
  - intros t Ht Hne. rewrite lookup_app_l by lia. by apply T.
  - intros o Ho. destruct (F o Ho) as (o' & Ho' & Eo). exists o'. split; [|done].
    rewrite lookup_app_l; [done|]. by eapply lookup_lt_Some.
  - rewrite length_app. lia.
  - rewrite length_app. lia.
  - intros t o Ht Ho. destruct (decide (t < length (tens w))%nat) as [Hlt|Hge].
    + rewrite lookup_app_l in Ho by done. by eapply N.
    + rewrite lookup_app_r in Ho by lia.
      destruct (t - length (tens w))%nat; simpl in Ho; [|done].
      injection Ho as <-. simpl. lia.
  - done.
Qed.

Lemma nd_set_tens w v idx a : tens (nd_set w v idx a) = tens w.
Proof. done. Qed.

Lemma nd_set_log w v idx a : log (nd_set w v idx a) = log w.
Proof. done. Qed.

Lemma ext_nd_set x evs w0 w v idx a :
  (length (bufs w0) ≤ data v)%nat →
  ext x evs w0 w → ext x evs w0 (nd_set w v idx a).
Proof.
  intros Hv [B T F NB NT N L]. constructor; simpl; try done.
  - intros d Hd. rewrite list_lookup_insert_ne by lia. by apply B.
  - by rewrite length_insert.
Qed.

Lemma ext_foldl {A} x evs w0 (f : World → A → World) (l : list A) w :
  (∀ w1 a, ext x evs w0 w1 → ext x evs w0 (f w1 a)) →
  ext x evs w0 w → ext x evs w0 (foldl f w l).
Proof.
  intros Hf. revert w. induction l as [|a l IH]; intros w Hw; simpl; [done|].
  apply IH. by apply Hf.
Qed.

Lemma ext_assign x evs w0 w dst src :
  (length (bufs w0) ≤ data dst)%nat →
  ext x evs w0 w → ext x evs w0 (assign_world dst src w).
Proof. intros Hd. apply ext_foldl. intros w1 idx. by apply ext_nd_set. Qed.

Lemma ext_assigns x evs w0 w dst a :
  (length (bufs w0) ≤ data dst)%nat →
  ext x evs w0 w → ext x evs w0 (assigns_world dst a w).
Proof. intros Hd. apply ext_foldl. intros w1 idx. by apply ext_nd_set. Qed.

Lemma ext_emit x evs w0 w e :
  ext x evs w0 w → ext x (evs ++ [e]) w0 (emit e w).
Proof.
  intros [B T F NB NT N L]. constructor; simpl; try done.
  by rewrite L, app_assoc.
Qed.

Lemma ext_set_bufs_new x evs w0 w d b :
  (length (bufs w0) ≤ d)%nat →
  ext x evs w0 w → ext x evs w0 (set_bufs w (<[d := b]> (bufs w))).
Proof.
  intros Hd [B T F NB NT N L]. constructor; simpl; try done.
  - intros d' Hd'. rewrite list_lookup_insert_ne by lia. by apply B.
  - by rewrite length_insert.
Qed.

Lemma ext_push_buf x evs w0 w b :
  ext x evs w0 w → ext x evs w0 (set_bufs w (bufs w ++ [b])).
Proof.
  intros [B T F NB NT N L]. constructor; simpl; try done.
  - intros d Hd. rewrite lookup_app_l by lia. by apply B.
  - rewrite length_app. lia.
Qed.

(** Rebinding the view of the one old wrapper that may change. *)
Lemma ext_set_tensor_old x evs w0 w o v :
  (x < length (tens w0))%nat →
  tens w !! x = Some o →
  ext x evs w0 w →
  ext x evs w0 (set_tens w (<[x := {| tensor := v; _useWeblas := _useWeblas o |}]> (tens w))).
Proof.
  intros Hx Ho [B T F NB NT N L]. constructor; simpl; try done.
  - intros t Ht Hne. rewrite list_lookup_insert_ne by done. by apply T.
  - intros o0 Ho0. destruct (F o0 Ho0) as (o' & Ho' & Eo).
    eexists. rewrite list_lookup_insert_eq by (by eapply lookup_lt_Some).
    split; [done|]. simpl. congruence.
  - by rewrite length_insert.
  - intros t o' Ht Ho'. rewrite list_lookup_insert_ne in Ho' by lia. by eapply N.
Qed.

(** Rebinding the view of a wrapper made since, to a buffer made since. *)
Lemma ext_set_tensor_new x evs w0 w t v flag :
  (length (tens w0) ≤ t)%nat →
  (length (bufs w0) ≤ data v)%nat →
  (x < length (tens w0))%nat →
  ext x evs w0 w →
  ext x evs w0 (set_tens w (<[t := {| tensor := v; _useWeblas := flag |}]> (tens w))).
Proof.
  intros Ht Hv Hx [B T F NB NT N L]. constructor; simpl; try done.
  - intros t' Ht' Hne. rewrite list_lookup_insert_ne by lia. by apply T.
  - intros o0 Ho0. destruct (F o0 Ho0) as (o' & Ho' & Eo).
    exists o'. by rewrite list_lookup_insert_ne by lia.
  - by rewrite length_insert.
  - intros t' o' Ht' Ho'. destruct (decide (t = t')) as [->|Hne].
    + apply list_lookup_insert_Some in Ho' as [(_ & <- & _)|(? & _)]; [done|done].
    + rewrite list_lookup_insert_ne in Ho' by done. by eapply N.
Qed.

Lemma assign_world_tens dst src w : tens (assign_world dst src w) = tens w.
Proof.
  unfold assign_world. generalize (indices (shape dst)). intros l. revert w.
  induction l as [|i l IH]; intros w; simpl; [done|]. by rewrite IH.
Qed.

Lemma assign_world_log dst src w : log (assign_world dst src w) = log w.
Proof.
  unfold assign_world. generalize (indices (shape dst)). intros l. revert w.
  induction l as [|i l IH]; intros w; simpl; [done|]. by rewrite IH.
Qed.

Lemma assigns_world_tens dst a w : tens (assigns_world dst a w) = tens w.
Proof.
  unfold assigns_world. generalize (indices (shape dst)). intros l. revert w.
  induction l as [|i l IH]; intros w; simpl; [done|]. by rewrite IH.
Qed.

Lemma assigns_world_log dst a w : log (assigns_world dst a w) = log w.
Proof.
  unfold assigns_world. generalize (indices (shape dst)). intros l. revert w.
  induction l as [|i l IH]; intros w; simpl; [done|]. by rewrite IH.
Qed.

Lemma foldl_tens {A} (f : World → A → World) (l : list A) w :
  (∀ w1 a, tens (f w1 a) = tens w1) → tens (foldl f w l) = tens w.
Proof.
  intros Hf. revert w. induction l as [|a l IH]; intros w; simpl; [done|].
  by rewrite IH, Hf.
Qed.

Lemma foldl_bufs_length {A} (f : World → A → World) (l : list A) w :
  (∀ w1 a, length (bufs (f w1 a)) = length (bufs w1)) →
  length (bufs (foldl f w l)) = length (bufs w).
Proof.
  intros Hf. revert w. induction l as [|a l IH]; intros w; simpl; [done|].
  by rewrite IH, Hf.
Qed.

Lemma nd_set_bufs_length w v idx a : length (bufs (nd_set w v idx a)) = length (bufs w).
Proof. simpl. by rewrite length_insert. Qed.

Lemma assign_world_bufs_length dst src w :
  length (bufs (assign_world dst src w)) = length (bufs w).
Proof. apply foldl_bufs_length. intros. apply nd_set_bufs_length. Qed.

Lemma assigns_world_bufs_length dst a w :
  length (bufs (assigns_world dst a w)) = length (bufs w).
Proof. apply foldl_bufs_length. intros. apply nd_set_bufs_length. Qed.

(** The rules of the steps of a method, for the frame relation: each gives
    the stores after the step as a new variable, related to the entry
    stores [w0]. *)
Section frame_rules.
Context (x : tref) (evs : list Event) (w0 : World).
Hypothesis Hx : (x < length (tens w0))%nat.

Lemma frame_new_Tensor sh (Q : tref → World → Prop) w :
  ext x evs w0 w →
  (∀ t w', t = length (tens w) → (length (tens w0) ≤ t)%nat →
     ext x evs w0 w' →
     tens w' = tens w ++ [{| tensor := ndarray_of (length (bufs w)) sh;
                             _useWeblas := false |}] →
     bufs w' = bufs w ++ [zeros (foldr Z.mul 1 sh)] →
     Q t w') →
  wp True (new_Tensor sh) Q w.
Proof.
  intros He HQ. apply wp_new_Tensor; [|done]. intros _.
  apply HQ; [done|by destruct He|by apply ext_alloc|done|done].
Qed.

Lemma frame_get_tensor t (Q : ndarray → World → Prop) w :
  ext x evs w0 w →
  (∀ o, tens w !! t = Some o →
     ((length (tens w0) ≤ t)%nat → (length (bufs w0) ≤ data (tensor o))%nat) →
     Q (tensor o) w) →
  wp True (get_tensor t) Q w.
Proof.
  intros He HQ. apply wp_get_tensor; [|done]. intros o Ho.
  apply HQ; [done|]. intros Ht. by eapply ext_new.
Qed.

Lemma frame_assign dst src (Q : unit → World → Prop) w :
  ext x evs w0 w →
  (length (bufs w0) ≤ data dst)%nat →
  (∀ w', ext x evs w0 w' → tens w' = tens w →
     length (bufs w') = length (bufs w) → Q tt w') →
  wp True (ops_assign dst src) Q w.
Proof.
  intros He Hd HQ. apply wp_ops_assign, HQ; [by apply ext_assign|..].
  - apply assign_world_tens.
  - apply assign_world_bufs_length.
Qed.

Lemma frame_assigns dst a (Q : unit → World → Prop) w :
  ext x evs w0 w →
  (length (bufs w0) ≤ data dst)%nat →
  (∀ w', ext x evs w0 w' → tens w' = tens w →
     length (bufs w') = length (bufs w) → Q tt w') →
  wp True (ops_assigns dst a) Q w.
Proof.
  intros He Hd HQ. apply wp_ops_assigns, HQ; [by apply ext_assigns|..].
  - apply assigns_world_tens.
  - apply assigns_world_bufs_length.
Qed.

Lemma frame_replaceTensorData t d (Q : unit → World → Prop) w :
  ext x evs w0 w →
  (length (tens w0) ≤ t)%nat →
  (length (bufs w0) ≤ d)%nat →
  (∀ o w', ext x evs w0 w' → tens w !! t = Some o →
     tens w' = <[t := {| tensor := {| data := d; shape := shape (tensor o);
                                      stride := stride (tensor o);
                                      offset := offset (tensor o) |};
                         _useWeblas := _useWeblas o |}]> (tens w) →
     bufs w' = bufs w →
     Q tt w') →
  wp True (replaceTensorData t d) Q w.
Proof.
  intros He Ht Hd HQ. apply wp_replaceTensorData; [|done]. intros o Ho.
  eapply HQ; [|done|done|done]. by apply ext_set_tensor_new.
Qed.

Lemma frame_set_tensor v (Q : unit → World → Prop) w :
  ext x evs w0 w →
  (∀ o w', ext x evs w0 w' → tens w !! x = Some o →
     tens w' = <[x := {| tensor := v; _useWeblas := _useWeblas o |}]> (tens w) →
     bufs w' = bufs w →
     Q tt w') →
  wp True (set_tensor x v) Q w.
Proof.
  intros He HQ. apply wp_set_tensor; [|done]. intros o Ho.
  eapply HQ; [|done|done|done]. by apply ext_set_tensor_old.
Qed.

Lemma frame_for_each {A} (I : World → Prop) (l : list A) (body : A → M unit)
    (Q : unit → World → Prop) w :
  ext x evs w0 w → I w →
  (∀ a w1, ext x evs w0 w1 → I w1 →
     wp True (body a) (λ _ w2, ext x evs w0 w2 ∧ I w2) w1) →
  (∀ w1, ext x evs w0 w1 → I w1 → Q tt w1) →
  wp True (for_each l body) Q w.
Proof.
  intros He HI Hbody HQ.
  apply (wp_for_each True (λ w1, ext x evs w0 w1 ∧ I w1)); [done|..].
  - intros a w1 _ [He1 HI1]. by apply Hbody.
  - intros w1 [He1 HI1]. by apply HQ.
Qed.

Lemma frame_gemm c a b al be (Q : unit → World → Prop) w :
  ext x evs w0 w →
  (length (bufs w0) ≤ data c)%nat →
  (∀ w', ext x (evs ++ [EvGemm]) w0 w' → tens w' = tens w → Q tt w') →
  wp True (gemm c a b al be) Q w.
Proof.
  intros He Hd HQ. apply wp_modify, HQ.
  - apply ext_emit. apply ext_foldl; [|exact He].
    intros w1 idx He1. destruct idx as [|p [|f [|? ?]]]; try done.
    by apply ext_nd_set.
  - simpl. apply foldl_tens. intros w1 idx.
    by destruct idx as [|p [|f [|? ?]]].
Qed.

Lemma frame_weblas_sgemm m n k al A B be C (Q : loc → World → Prop) w :
  ext x evs w0 w →
  (∀ d w', (length (bufs w0) ≤ d)%nat → ext x (evs ++ [EvSgemm]) w0 w' →
     tens w' = tens w → Q d w') →
  wp True (weblas_sgemm m n k al A B be C) Q w.
Proof.
  intros He HQ. unfold wp, weblas_sgemm. apply HQ.
  - by destruct He.
  - by apply ext_emit, ext_push_buf.
  - done.
Qed.

Lemma frame_apply_activation act t (Q : unit → World → Prop) w :
  ext x evs w0 w →
  (∀ o, tens w !! t = Some o → (length (bufs w0) ≤ data (tensor o))%nat) →
  (∀ w', ext x evs w0 w' → tens w' = tens w → Q tt w') →
  wp True (apply_activation act t) Q w.
Proof.
  intros He Ht HQ. unfold apply_activation.
  apply wp_bind, wp_get_tensor; [|done]. intros o Ho.
  apply wp_modify, HQ; [|done]. apply ext_set_bufs_new; [by apply Ht|done].
Qed.
End frame_rules.

Lemma wp_all {A X} (c : M A) (Q : X → A → World → Prop) w :
  (∀ x, wp True c (Q x) w) → wp True c (λ a w', ∀ x, Q x a w') w.
Proof.
  unfold wp. intros H. destruct (c w) as [[a w']| | |] eqn:Hc; [|done..].
  intros x. exact (H x).
Qed.

(** ** The frame of each method *)

Lemma w2row_frame_at x this w :
  (x < length (tens w))%nat →
  wp True (_w2row this)
    (λ r w', ext x [EvW2row] w w' ∧ r = length (tens w)
             ∧ ∃ o pl, tens w' !! r = Some o
                       ∧ shape (tensor o) = [pl; (kernelShape this).1.1]
                       ∧ (data (tensor o) < length (bufs w'))%nat) w.
Proof.
  intros Hx. unfold _w2row.
  apply wp_bind, wp_defined; [|done]. intros W HW.
  apply wp_bind, wp_get_tensor; [|done]. intros Wo HWo.
  apply wp_bind, wp_shape_at; [|done]. intros C HC.
  destruct (kernelShape this) as [[F kR] kC] eqn:Hk. simpl.
  pose proof (ext_refl x w) as He.
  apply wp_bind, (frame_new_Tensor x [] w); [done|].
  intros r w1 Hr _ He1 Ht1 Hb1.
  apply wp_bind, (frame_new_Tensor x [] w); [done|].
  intros p w2 Hp Hp' He2 Ht2 Hb2.
  apply wp_bind, (frame_new_Tensor x [] w); [done|].
  intros q w3 Hq Hq' He3 Ht3 Hb3.
  assert (Hrq : r ≠ q).
  { subst q p r. rewrite Ht2, Ht1, !length_app. simpl. lia. }
  apply wp_bind.
  apply (frame_for_each x [] w
    (λ w', ∃ o, tens w' !! r = Some o ∧ shape (tensor o) = [kR * kC * C; F]
                ∧ (data (tensor o) < length (bufs w'))%nat)); [done|..].
  - rewrite Ht3, Ht2, Ht1. eexists. split; [|split].
    + rewrite <- !app_assoc. rewrite lookup_app_r by lia.
      by rewrite Hr, Nat.sub_diag.
    + done.
    + simpl. rewrite Hb3, Hb2, Hb1, !length_app. simpl. lia.
  - clear dependent w1 w2 w3. intros n w1 He1 (ro & Hro & Hsh & Hlt).
    apply wp_bind, (frame_get_tensor x [] w); [done|]. intros po Hpo Hpd.
    apply wp_bind, (frame_get_tensor x [] w); [done|]. intros Wo' HWo' _.
    apply wp_bind, (frame_assign x [] w); [done|by apply Hpd|].
    intros w2 He2 Ht2 Hb2. clear po Hpo Hpd.
    apply wp_bind, (frame_get_tensor x [] w); [done|]. intros po Hpo Hpd.
    apply wp_bind, (frame_replaceTensorData x [] w Hx); [done|done|by apply Hpd|].
    intros qo w3 He3 Hqo Ht3 Hb3.
    apply wp_bind, (frame_get_tensor x [] w); [done|]. intros ro' Hro' Hrd.
    apply wp_bind, (frame_get_tensor x [] w); [done|]. intros qo' Hqo' _.
    apply (frame_assign x [] w); [done| |].
    { simpl. apply Hrd. lia. }
    intros w4 He4 Ht4 Hb4. split; [done|].
    exists ro. split; [|split; [done|]].
    + rewrite Ht4, Ht3, list_lookup_insert_ne by done. by rewrite Ht2.
    + by rewrite Hb4, Hb3, Hb2.
  - clear dependent w1 w2 w3. intros w1 He1 (ro & Hro & Hsh & Hlt).
    apply wp_bind, wp_modify. apply wp_ret.
    split; [|split; [done|]].
    + by apply (ext_emit x [] w w1 EvW2row).
    + by exists ro, (kR * kC * C).
Qed.

Lemma wp_const {A} (c : M A) (P : Prop) w : P → wp True c (λ _ _, P) w.
Proof. intros HP. unfold wp. destruct (c w) as [[a w']| | |]; done. Qed.

Lemma w2row_frame this w :
  wp True (_w2row this)
    (λ r w', ∃ W, weights_W this = Some W ∧ (W < length (tens w))%nat
             ∧ ∀ x, (x < length (tens w))%nat →
                 ext x [EvW2row] w w' ∧ r = length (tens w)
                 ∧ ∃ o pl, tens w' !! r = Some o
                           ∧ shape (tensor o) = [pl; (kernelShape this).1.1]
                           ∧ (data (tensor o) < length (bufs w'))%nat) w.
Proof.
  assert (H1 : wp True (_w2row this)
    (λ _ _, ∃ W, weights_W this = Some W ∧ (W < length (tens w))%nat) w).
  { unfold _w2row.
    apply wp_bind, wp_defined; [|done]. intros W HW.
    apply wp_bind, wp_get_tensor; [|done]. intros Wo HWo.
    apply wp_const. exists W. split; [done|]. by eapply lookup_lt_Some. }
  unfold wp in *. destruct (_w2row this w) as [[r w']| | |] eqn:Hrun; [|done..].
  destruct H1 as (W & HW & HWlt). exists W. split; [done|]. split; [done|].
  intros x Hx. exact (wp_inv _ _ _ _ _ _ (w2row_frame_at x this w Hx) Hrun).
Qed.

Lemma setWeights_frame this ws w :
  wp True (setWeights this ws)
    (λ l' w', ∃ W, ws !! 0%nat = Some W ∧ (W < length (tens w))%nat
              ∧ l' = set_wRowsMat (super_setWeights this ws) (Some (length (tens w)))
              ∧ (∃ o pl, tens w' !! length (tens w) = Some o
                         ∧ shape (tensor o) = [pl; (kernelShape this).1.1]
                         ∧ (data (tensor o) < length (bufs w'))%nat)
              ∧ ∀ x, (x < length (tens w))%nat →
                  (dimOrdering this = "th" → x = W) →
                  ext x [EvW2row] w w') w.
Proof.
  unfold setWeights.
  apply wp_bind. case_bool_decide as Hd.
  - apply wp_bind, wp_defined; [|done]. intros W HW0.
    apply wp_bind, wp_get_tensor; [|done]. intros o Ho.
    assert (HW : (W < length (tens w))%nat) by by eapply lookup_lt_Some.
    apply (frame_set_tensor W [] w HW); [apply ext_refl|].
    intros o' w1 He1 _ Ht1 Hb1.
    assert (Hlen : length (tens w1) = length (tens w)) by by rewrite Ht1, length_insert.
    apply wp_bind. eapply wp_mono; [|by apply w2row_frame].
    intros r w2 (W' & HW' & HWlt & Hall). apply wp_ret.
    destruct (Hall W ltac:(lia)) as (He2 & -> & ro & pl & Hro & Hsh & Hlt).
    exists W. split; [done|]. split; [done|]. split; [by rewrite Hlen|].
    split; [rewrite <- Hlen; eauto|].
    intros x Hx Hth. rewrite (Hth Hd).
    by apply (ext_trans W [] [EvW2row] w w1 w2).
  - apply wp_ret.
    apply wp_bind. eapply wp_mono; [|by apply w2row_frame].
    intros r w2 (W & HW & HWlt & Hall). apply wp_ret.
    destruct (Hall W HWlt) as (He2 & -> & ro & pl & Hro & Hsh & Hlt).
    exists W. split; [done|]. split; [done|]. split; [done|].
    split; [eauto|].
    intros x Hx _. by destruct (Hall x Hx).
Qed.

Lemma calcOutputShape_frame this x w :
  wp True (_calcOutputShape this x)
    (λ l' w', w' = w ∧ is_Some (tens w !! x)
              ∧ ∃ os pad, l' = set_geometry this os pad
                          ∧ os.2 = (kernelShape this).1.1) w.
Proof.
  unfold _calcOutputShape.
  apply wp_bind, wp_get_tensor; [|done]. intros o Ho.
  apply wp_bind, wp_shape_at; [|done]. intros ir Hir.
  apply wp_bind, wp_shape_at; [|done]. intros ic Hic.
  destruct (kernelShape this) as [[F kR] kC]. destruct (subsample this) as [s0 s1].
  apply wp_bind. case_bool_decide as Hb; (apply wp_floor_div; [|done]); intros _;
    (apply wp_bind; apply wp_floor_div; [|done]); intros _; apply wp_ret;
    eauto 10.
Qed.

Lemma padInput_frame this x w :
  wp True (_padInput this x) (λ r w', r = x ∧ ext x [] w w') w.
Proof.
  unfold _padInput.
  case_bool_decide as Hb; [|apply wp_ret; split; [done|apply ext_refl]].
  apply wp_bind, wp_get_tensor; [|done]. intros xo Hxo.
  assert (Hx : (x < length (tens w))%nat) by by eapply lookup_lt_Some.
  destruct (shape (tensor xo)) as [|ir [|ic [|C rest]]]; try done.
  apply wp_bind, wp_defined; [|done]. intros [[[pRB pRA] pCB] pCA] Hpad.
  apply wp_bind, (frame_new_Tensor x [] w); [apply ext_refl|].
  intros t w1 Ht Ht' He1 Ht1 Hb1.
  apply wp_bind, (frame_get_tensor x [] w); [done|]. intros to Hto Htd.
  apply wp_bind, (frame_get_tensor x [] w); [done|]. intros xo' Hxo' _.
  apply wp_bind, (frame_assign x [] w); [done|by apply Htd|].
  intros w2 He2 Ht2 Hb2.
  apply wp_bind, (frame_get_tensor x [] w); [done|]. intros to' Hto' _.
  apply wp_bind, (frame_set_tensor x [] w Hx); [done|].
  intros xo2 w3 He3 _ _ _. by apply wp_ret.
Qed.

Lemma im2col_frame this x w :
  wp True (_im2col this x) (λ r w', r = length (tens w) ∧ ext x [] w w') w.
Proof.
  unfold _im2col.
  apply wp_bind, wp_get_tensor; [|done]. intros xo Hxo.
  assert (Hx : (x < length (tens w))%nat) by by eapply lookup_lt_Some.
  destruct (shape (tensor xo)) as [|ir [|ic [|C rest]]]; try done.
  destruct (kernelShape this) as [[F kR] kC].
  apply wp_bind, wp_defined; [|done]. intros [[oR oC] oF] Hos.
  apply wp_bind, (frame_new_Tensor x [] w); [apply ext_refl|].
  intros im w1 Him Him' He1 Ht1 Hb1.
  apply wp_bind, (frame_new_Tensor x [] w); [done|].
  intros p w2 Hp Hp' He2 Ht2 Hb2.
  apply wp_bind, (frame_new_Tensor x [] w); [done|].
  intros q w3 Hq Hq' He3 Ht3 Hb3.
  apply wp_bind.
  apply (wp_for_step (λ (_ : Z) w', ext x [] w w')); [done|..].
  - clear dependent w1 w2 w3. intros i n w1 He1.
    apply (wp_for_step (λ (_ : Z) w', ext x [] w w')); [done|..]; [|done].
    clear dependent w1. intros j n' w1 He1.
    apply wp_bind, (frame_get_tensor x [] w); [done|]. intros po Hpo Hpd.
    apply wp_bind, (frame_get_tensor x [] w); [done|]. intros xo' Hxo' _.
    apply wp_bind, (frame_assign x [] w); [done|by apply Hpd|].
    intros w2 He2 Ht2 Hb2. clear po Hpo Hpd.
    apply wp_bind, (frame_get_tensor x [] w); [done|]. intros po Hpo Hpd.
    apply wp_bind, (frame_replaceTensorData x [] w Hx); [done|done|by apply Hpd|].
    intros qo w3 He3 Hqo Ht3 Hb3.
    apply wp_bind, (frame_get_tensor x [] w); [done|]. intros imo Himo Himd.
    apply wp_bind, (frame_get_tensor x [] w); [done|]. intros qo' Hqo' _.
    apply wp_bind, (frame_assign x [] w); [done|simpl; by apply Himd|].
    intros w4 He4 Ht4 Hb4. by apply wp_ret.
  - intros n w4 He4. by apply wp_ret.
Qed.

Lemma call_frame this x w :
  wp True (call this x)
    (λ rl w', ∃ xo os pad d,
       tens w !! x = Some xo
       ∧ rl = (x, set_geometry this os pad)
       ∧ os.2 = (kernelShape this).1.1
       ∧ ext x [if _useWeblas xo then EvSgemm else EvGemm] w w'
       ∧ (length (bufs w) ≤ d)%nat
       ∧ tens w' !! x
         = Some {| tensor :=
                     (if bool_decide (dimOrdering this = "th")
                      then transpose (ndarray_of d [os.1.1; os.1.2; os.2]) [2; 0; 1]%nat
                      else ndarray_of d [os.1.1; os.1.2; os.2]);
                   _useWeblas := _useWeblas xo |}) w.
Proof.
  unfold call.
  (* entry transposition *)
  apply wp_bind.
  apply (wp_mono _ _ (λ _ w1, ext x [] w w1 ∧ length (tens w1) = length (tens w))).
  2:{ case_bool_decide as Hth; [|apply wp_ret; split; [apply ext_refl|done]].
      apply wp_bind, wp_get_tensor; [|done]. intros xo Hxo.
      apply (frame_set_tensor x [] w); [by eapply lookup_lt_Some|apply ext_refl|].
      intros o w1 He1 _ Ht1 _. split; [done|]. by rewrite Ht1, length_insert. }
  intros [] w1 [He1 Hlen1].
  apply wp_bind. eapply wp_mono; [|apply calcOutputShape_frame].
  intros l1 ? (-> & [xo1 Hxo1] & [[oR oC] oF] & pad & -> & HoF). simpl in HoF.
  assert (Hx : (x < length (tens w))%nat).
  { rewrite <- Hlen1. by eapply lookup_lt_Some. }
  destruct (lookup_lt_is_Some_2 _ _ Hx) as [xo Hxo].
  apply wp_bind. eapply wp_mono; [|apply padInput_frame].
  intros ? w2 (-> & He2).
  assert (He2' : ext x [] w w2).
  { apply (ext_trans x [] [] w w1 w2); [done..|]. done. }
  clear He2 He1 Hxo1 xo1.
  apply wp_bind. eapply wp_mono; [|apply im2col_frame].
  intros im w3 (Him & He3).
  assert (He3' : ext x [] w w3).
  { apply (ext_trans x [] [] w w2 w3); [done..|]. done. }
  assert (Him' : (length (tens w) ≤ im)%nat) by (subst im; by destruct He2').
  clear He3 He2' Him w2 w1 Hlen1.
  apply wp_bind, wp_defined; [|done]. intros wr Hwr.
  apply wp_bind, wp_defined; [|done]. intros ? [= <-].
  cbn [kernelShape set_geometry fst snd bias weights_b activation dimOrdering].
  apply wp_bind, (frame_new_Tensor x [] w); [done|].
  intros mm w4 Hmm Hmm' He4 Ht4 Hb4. clear Hmm.
  (* bias *)
  apply wp_bind.
  apply (wp_mono _ _ (λ _ w5, ext x [] w w5)).
  2:{ destruct (bias this); [|by apply wp_ret].
      apply (frame_for_each x [] w (λ _, True)); [done|done| |done].
      intros n w5 He5 _.
      apply wp_bind, (frame_get_tensor x [] w); [done|]. intros mo Hmo Hmd.
      apply wp_bind, wp_defined; [|done]. intros b Hb.
      apply wp_bind, wp_get_tensor; [|done]. intros bo Hbo.
      apply wp_bind, wp_read_at.
      apply (frame_assigns x [] w); [done|simpl; by apply Hmd|]. done. }
  clear dependent w3 w4. intros [] w5 He5.
  apply wp_bind, wp_get_obj; [|done]. intros xo5 Hxo5.
  assert (Hflag : _useWeblas xo5 = _useWeblas xo).
  { destruct (ext_flag _ _ _ _ He5 xo Hxo) as (o' & Ho' & Ef). congruence. }
  rewrite Hflag. clear Hflag xo5 Hxo5.
  (* matrix product *)
  apply wp_bind.
  apply (wp_mono _ _ (λ _ w6,
    ext x [if _useWeblas xo then EvSgemm else EvGemm] w w6)).
  2:{ destruct (_useWeblas xo).
      - apply wp_bind.
        apply (wp_mono _ _ (λ _ w6, w6 = w5)).
        2:{ destruct (bias this).
            - apply wp_bind, wp_defined; [|done]. intros b Hb.
              apply wp_bind, wp_get_tensor; [|done]. intros bo Hbo.
              by apply wp_read_buf.
            - apply wp_bind, wp_get_tensor; [|done]. intros wo Hwo.
              apply wp_bind, wp_shape_at; [|done]. intros n Hn.
              by apply wp_ret. }
        intros biasData ? ->.
        apply wp_bind, wp_get_tensor; [|done]. intros imo Himo.
        apply wp_bind, wp_get_tensor; [|done]. intros wo Hwo.
        apply wp_bind, wp_shape_at; [|done]. intros m Hm.
        apply wp_bind, wp_shape_at; [|done]. intros n Hn.
        apply wp_bind, wp_shape_at; [|done]. intros k Hk.
        apply wp_bind, wp_read_buf. apply wp_bind, wp_read_buf.
        apply wp_bind, (frame_weblas_sgemm x [] w); [done|].
        intros d w6 Hd He6 Ht6.
        apply (frame_replaceTensorData x [EvSgemm] w); [done..|].
        by intros.
      - apply wp_bind, (frame_get_tensor x [] w); [done|]. intros mo Hmo Hmd.
        apply wp_bind, wp_get_tensor; [|done]. intros imo Himo.
        apply wp_bind, wp_get_tensor; [|done]. intros wo Hwo.
        apply (frame_gemm x [] w); [done|by apply Hmd|]. by intros. }
  clear dependent w5. intros [] w6 He6.
  set (ev := if _useWeblas xo then EvSgemm else EvGemm) in *.
  (* assembly *)
  apply wp_bind, (frame_new_Tensor x [ev] w); [done|].
  intros out w7 Hout Hout' He7 Ht7 _.
  assert (Hd : (length (bufs w) ≤ length (bufs w6))%nat) by by destruct He6.
  set (d := length (bufs w6)) in *.
  assert (Hout7 : tens w7 !! out
                  = Some {| tensor := ndarray_of d [oR; oC; oF]; _useWeblas := false |}).
  { rewrite Ht7, Hout. by rewrite lookup_app_r, Nat.sub_diag by lia. }
  assert (Hlen7 : (out < length (tens w7))%nat) by by eapply lookup_lt_Some.
  clearbody d. clear Ht7 Hout He6 w6.
  apply wp_bind, (frame_new_Tensor x [ev] w); [done|].
  intros ocr w8 Hocr Hocr' He8 Ht8 _.
  assert (Hout8 : tens w8 !! out
                  = Some {| tensor := ndarray_of d [oR; oC; oF]; _useWeblas := false |}).
  { rewrite Ht8. by rewrite lookup_app_l by lia. }
  assert (Hlen8 : (out < ocr)%nat) by lia.
  clear Hocr Ht8 Hout7 Hlen7 He7 w7.
  apply wp_bind, (frame_new_Tensor x [ev] w); [done|].
  intros oc w9 Hoc Hoc' He9 Ht9 _.
  assert (Hout9 : tens w9 !! out
                  = Some {| tensor := ndarray_of d [oR; oC; oF]; _useWeblas := false |}).
  { rewrite Ht9. rewrite lookup_app_l; [done|]. by eapply lookup_lt_Some. }
  assert (Hlen9 : (out < oc)%nat).
  { subst oc. by eapply lookup_lt_Some. }
  clear Hoc Ht9 Hout8 He8 w8.
  apply wp_bind.
  apply (frame_for_each x [ev] w
    (λ w', tens w' !! out
           = Some {| tensor := ndarray_of d [oR; oC; oF]; _useWeblas := false |}));
    [done|done|..].
  - clear dependent w9. intros n w9 He9 Hout9.
    apply wp_bind, (frame_get_tensor x [ev] w); [done|]. intros ro Hro Hrd.
    apply wp_bind, (frame_get_tensor x [ev] w); [done|]. intros mo Hmo _.
    apply wp_bind, (frame_assign x [ev] w); [done|apply Hrd; lia|].
    intros w10 He10 Ht10 _. clear ro Hro Hrd.
    apply wp_bind, (frame_get_tensor x [ev] w); [done|]. intros ro Hro Hrd.
    apply wp_bind, (frame_replaceTensorData x [ev] w Hx); [done|lia|apply Hrd; lia|].
    intros co w11 He11 Hco Ht11 _.
    apply wp_bind, (frame_get_tensor x [ev] w); [done|]. intros oo Hoo Hod.
    apply wp_bind, (frame_get_tensor x [ev] w); [done|]. intros co' Hco' _.
    apply (frame_assign x [ev] w); [done|simpl; apply Hod; lia|].
    intros w12 He12 Ht12 _. split; [done|].
    rewrite Ht12, Ht11, list_lookup_insert_ne by lia. by rewrite Ht10.
  - clear dependent w9. intros w9 He9 Hout9.
    apply wp_bind, (frame_get_tensor x [ev] w); [done|]. intros oo Hoo _.
    rewrite Hout9 in Hoo. injection Hoo as <-. cbn [tensor].
    apply wp_bind, (frame_set_tensor x [ev] w Hx); [done|].
    intros xo9 w10 He10 Hxo9 Ht10 _.
    assert (Hflag : _useWeblas xo9 = _useWeblas xo).
    { destruct (ext_flag _ _ _ _ He9 xo Hxo) as (o' & Ho' & Ef). congruence. }
    rewrite Hflag in Ht10. clear Hflag.
    assert (Hx10 : tens w10 !! x
                   = Some {| tensor := ndarray_of d [oR; oC; oF];
                             _useWeblas := _useWeblas xo |}).
    { rewrite Ht10. apply list_lookup_insert_eq. by eapply lookup_lt_Some. }
    apply wp_bind, wp_defined; [|done]. intros act Hact.
    apply wp_bind, (frame_apply_activation x [ev] w); [done| |].
    { intros o Ho. rewrite Hx10 in Ho. by injection Ho as <-. }
    intros w11 He11 Ht11. rewrite <- Ht11 in Hx10.
    apply wp_bind.
    case_bool_decide as Hth.
    + apply wp_bind, wp_get_tensor; [|done]. intros xo11 Hxo11.
      rewrite Hx10 in Hxo11. injection Hxo11 as <-.
      apply (frame_set_tensor x [ev] w Hx); [done|].
      intros o w12 He12 Ho Ht12 _. apply wp_ret.
      rewrite Hx10 in Ho. injection Ho as <-.
      exists xo, (oR, oC, oF), pad, d. do 5 (split; [done|]).
      rewrite Ht12. apply list_lookup_insert_eq. by eapply lookup_lt_Some.
    + apply wp_ret. apply wp_ret.
      exists xo, (oR, oC, oF), pad, d. by do 5 (split; [done|]).
Qed.

(** ** Which backend runs *)

(** C3, as the code has it.  The backend is chosen on every call, by the
    [_useWeblas] flag of the input wrapper: a call that returns has run
    [weblas.sgemm] once and nothing else when the flag is set, and [gemm]
    once and nothing else when it is not.  Two calls whose inputs carry the
    same flag therefore take the same backend. *)
Theorem backend_follows_input_flag (this : Layer) (x : tref) (w : World)
    (r : tref) (l' : Layer) (w' : World) :
  call this x w = Ok (r, l', w') →
  ∃ xo, tens w !! x = Some xo
        ∧ log w' = log w ++ [if _useWeblas xo then EvSgemm else EvGemm].
Proof.
  intros Hrun.
  destruct (wp_inv _ _ _ _ _ _ (call_frame this x w) Hrun)
    as (xo & os & pad & d & Hxo & _ & _ & He & _).
  exists xo. split; [done|]. by destruct He.
Qed.

Lemma backend_follows_input_flag_witness :
  ∃ l w r l' w',
    example_loaded true = Some (l, w)
    ∧ call l 0%nat w = Ok (r, l', w')
    ∧ log w' = log w ++ [EvSgemm].
Proof.
  eexists _, _, _, _, _. split; [vm_compute; reflexivity|].
  split; [vm_compute; reflexivity|].
  match goal with
  | |- log ?w' = log ?w ++ _ =>
      destruct (backend_follows_input_flag
                  (set_wRowsMat (super_setWeights example_layer [1; 2]%nat) (Some 3%nat))
                  0%nat w 0%nat
                  (set_geometry
                     (set_wRowsMat (super_setWeights example_layer [1; 2]%nat)
                        (Some 3%nat)) (3, 3, 1) (0, 0, 0, 0))
                  w' ltac:(vm_compute; reflexivity)) as (xo & Hxo & Hlog)
  end.
  vm_compute in Hxo. injection Hxo as <-. exact Hlog.
Defined.

(** C3, counterexample to the claim as stated: one layer, two inputs with
    the same buffers and the same views, and two different backends. *)
Lemma backend_differs_on_equal_data :
  ∃ l w1 w2 r1 l1 w1' r2 l2 w2',
    example_loaded false = Some (l, w1)
    ∧ example_loaded true = Some (l, w2)
    ∧ bufs w1 = bufs w2
    ∧ tensor <$> tens w1 = tensor <$> tens w2
    ∧ call l 0%nat w1 = Ok (r1, l1, w1')
    ∧ call l 0%nat w2 = Ok (r2, l2, w2')
    ∧ log w1' = log w1 ++ [EvGemm]
    ∧ log w2' = log w2 ++ [EvSgemm].
Proof.
  eexists _, _, _, _, _, _, _, _, _.
  split; [vm_compute; reflexivity|].
  split; [vm_compute; reflexivity|].
  split; [vm_compute; reflexivity|].
  split; [vm_compute; reflexivity|].
  split; [vm_compute; reflexivity|].
  split; [vm_compute; reflexivity|].
  split; vm_compute; reflexivity.
Qed.

(** ** The cached filter matrix *)




(** ** Typed arrays and loops of writes *)

Lemma buf_set_length b k v : length (buf_set b k v) = length b.
Proof. unfold buf_set. case_bool_decide; [apply length_insert|done]. Qed.

Lemma buf_get_set_eq b k v :
  0 ≤ k < Z.of_nat (length b) → buf_get (buf_set b k v) k = v.
Proof.
  intros Hk. unfold buf_get, buf_set. rewrite !bool_decide_eq_true_2 by lia.
  rewrite list_lookup_insert_eq by lia. done.
Qed.

Lemma buf_get_set_ne b k k' v : k ≠ k' → buf_get (buf_set b k v) k' = buf_get b k'.
Proof.
  intros Hk. unfold buf_get, buf_set.
  case_bool_decide; [|done]. case_bool_decide; [|done].
  rewrite list_lookup_insert_ne by lia. done.
Qed.

Lemma buf_get_zeros n k : 0 ≤ k < n → buf_get (zeros n) k = Num 0.
Proof.
  intros Hk. unfold buf_get, zeros. rewrite bool_decide_eq_true_2 by lia.
  rewrite lookup_replicate_2 by lia. done.
Qed.

Lemma zeros_length n : Z.of_nat (length (zeros n)) = Z.max 0 n.
Proof. unfold zeros. rewrite length_replicate. lia. Qed.


Lemma write_upd_length g f idxs b : length (write_upd g f idxs b) = length b.
Proof.
  unfold write_upd. revert b. induction idxs as [|i l IH]; intros b; simpl; [done|].
  by rewrite IH, buf_set_length.
Qed.

Lemma write_upd_get_other g f idxs b k :
  (∀ idx, idx ∈ idxs → g idx ≠ k) →
  buf_get (write_upd g f idxs b) k = buf_get b k.
Proof.
  unfold write_upd. revert b. induction idxs as [|i l IH]; intros b Hne; simpl; [done|].
  rewrite IH.
  - apply buf_get_set_ne, Hne. by left.
  - intros idx Hidx. apply Hne. by right.
Qed.

Lemma write_upd_get g f idxs b idx :
  NoDup idxs →
  idx ∈ idxs →
  (∀ idx', idx' ∈ idxs → g idx' = g idx → idx' = idx) →
  0 ≤ g idx < Z.of_nat (length b) →
  buf_get (write_upd g f idxs b) (g idx) = f (buf_get b (g idx)) idx.
Proof.
  revert b. induction idxs as [|i l IH]; intros b Hnd Hin Hinj Hb.
  - by apply elem_of_nil in Hin.
  - apply NoDup_cons in Hnd as [Hi Hnd]. cbn [write_upd foldl].
    apply elem_of_cons in Hin as [->|Hin].
    + change (foldl _ ?b' l) with (write_upd g f l b').
      rewrite write_upd_get_other.
      * by apply buf_get_set_eq.
      * intros idx' Hidx' Heq. apply Hi.
        rewrite <- (Hinj idx'); [done|by right|done].
    + change (foldl _ ?b' l) with (write_upd g f l b').
      assert (Hne : g i ≠ g idx).
      { intros Heq. apply Hi. rewrite (Hinj i); [done|by left|done]. }
      rewrite IH; [|done|done| |by rewrite buf_set_length].
      * by rewrite buf_get_set_ne.
      * intros idx' Hidx'. apply Hinj. by right.
Qed.

(** ** Multi-indices *)

Lemma elem_of_indices sh idx :
  idx ∈ indices sh ↔ Forall2 (λ i n, 0 ≤ i < n) idx sh.
Proof.
  revert idx. induction sh as [|n sh IH]; intros idx; simpl.
  - rewrite list_elem_of_singleton. split; [intros ->; constructor|].
    by intros ->%Forall2_nil_inv_r.
  - rewrite list_elem_of_bind. split.
    + intros (i & Hidx & Hi). apply list_elem_of_fmap in Hidx as (rest & -> & Hrest).
      apply elem_of_seqZ in Hi. constructor; [lia|]. by apply IH.
    + intros H. apply Forall2_cons_inv_r in H as (i & rest & Hi & Hrest & ->).
      exists i. split; [|apply elem_of_seqZ; lia].
      apply list_elem_of_fmap. exists rest. split; [done|]. by apply IH.
Qed.

Lemma NoDup_indices sh : NoDup (indices sh).
Proof.
  induction sh as [|n sh IH]; simpl.
  - apply NoDup_singleton.
  - apply NoDup_bind.
    + intros i1 i2 idx _ _ H1 H2.
      apply list_elem_of_fmap in H1 as (r1 & -> & _).
      apply list_elem_of_fmap in H2 as (r2 & [= -> _] & _). done.
    + intros i _. apply NoDup_fmap_2; [|done]. by intros ?? [= ->].
    + apply NoDup_seqZ.
Qed.

Lemma elem_of_indices_1 n idx :
  idx ∈ indices [n] ↔ ∃ i, idx = [i] ∧ 0 ≤ i < n.
Proof.
  rewrite elem_of_indices. split.
  - intros H. apply Forall2_cons_inv_r in H as (i & rest & Hi & Hrest & ->).
    apply Forall2_nil_inv_r in Hrest as ->. eauto.
  - intros (i & -> & Hi). repeat (constructor; [lia|]). constructor.
Qed.


Lemma elem_of_indices_3 n m p idx :
  idx ∈ indices [n; m; p]
  ↔ ∃ i j k, idx = [i; j; k] ∧ 0 ≤ i < n ∧ 0 ≤ j < m ∧ 0 ≤ k < p.
Proof.
  rewrite elem_of_indices. split.
  - intros H. apply Forall2_cons_inv_r in H as (i & rest & Hi & Hrest & ->).
    apply Forall2_cons_inv_r in Hrest as (j & rest' & Hj & Hrest & ->).
    apply Forall2_cons_inv_r in Hrest as (k & rest'' & Hk & Hrest & ->).
    apply Forall2_nil_inv_r in Hrest as ->. eauto 10.
  - intros (i & j & k & -> & Hi & Hj & Hk).
    repeat (constructor; [lia|]). constructor.
Qed.

(** ** Row-major arithmetic *)

Lemma rm2_inj C q k q' k' :
  0 ≤ k < C → 0 ≤ k' < C → q * C + k = q' * C + k' → q = q' ∧ k = k'.
Proof.
  intros Hk Hk' Heq.
  assert (q = q') as ->; [|lia].
  destruct (Z.lt_trichotomy q q') as [Hlt|[->|Hgt]]; [|done|]; nia.
Qed.

Lemma rm2_bound N C q k : 0 ≤ q < N → 0 ≤ k < C → 0 ≤ q * C + k < N * C.
Proof. nia. Qed.

Lemma rm3_inj W C i j k i' j' k' :
  0 ≤ j < W → 0 ≤ j' < W → 0 ≤ k < C → 0 ≤ k' < C →
  (i * W + j) * C + k = (i' * W + j') * C + k' → i = i' ∧ j = j' ∧ k = k'.
Proof.
  intros Hj Hj' Hk Hk' Heq.
  apply rm2_inj in Heq as [Heq ->]; [|done..].
  apply rm2_inj in Heq as [-> ->]; done.
Qed.

Lemma rm3_bound H W C i j k :
  0 ≤ i < H → 0 ≤ j < W → 0 ≤ k < C → 0 ≤ (i * W + j) * C + k < H * W * C.
Proof.
  intros Hi Hj Hk.
  pose proof (rm2_bound H W i j Hi Hj). by apply rm2_bound.
Qed.

(** ** Loops of writes in the store *)

Lemma buf_of_insert_eq w d b bs :
  (d < length bs)%nat → buf_of (set_bufs w (<[d := b]> bs)) d = b.
Proof. intros Hd. unfold buf_of. simpl. by rewrite list_lookup_insert_eq. Qed.

Lemma buf_of_insert_ne w d d' b bs :
  d ≠ d' → buf_of (set_bufs w (<[d := b]> bs)) d' = default [] (bs !! d').
Proof. intros Hd. unfold buf_of. simpl. by rewrite list_lookup_insert_ne. Qed.

Lemma buf_of_eq w w' d : bufs w' !! d = bufs w !! d → buf_of w' d = buf_of w d.
Proof. unfold buf_of. by intros ->. Qed.

Lemma foldl_nd_set_bufs dst (val : World → list Z → f32) (f : f32 → list Z → f32) l w :
  (data dst < length (bufs w))%nat →
  (∀ w1 idx, (∀ s, s ≠ data dst → buf_of w1 s = buf_of w s) →
     val w1 idx = f (buf_get (buf_of w1 (data dst)) (index dst idx)) idx) →
  bufs (foldl (λ w' idx, nd_set w' dst idx (val w' idx)) w l)
  = <[data dst := write_upd (index dst) f l (buf_of w (data dst))]> (bufs w).
Proof.
  revert w. induction l as [|idx l IH]; intros w Hd Hval.
  - simpl. symmetry. apply list_insert_id. unfold buf_of.
    destruct (lookup_lt_is_Some_2 _ _ Hd) as [b Hb]. by rewrite Hb.
  - cbn [foldl].
    set (w1 := nd_set w dst idx (val w idx)).
    assert (Hb1 : bufs w1 = <[data dst := buf_set (buf_of w (data dst)) (index dst idx)
                                            (val w idx)]> (bufs w)) by done.
    assert (Hd1 : buf_of w1 (data dst)
                  = buf_set (buf_of w (data dst)) (index dst idx) (val w idx)).
    { unfold buf_of at 1. by rewrite Hb1, list_lookup_insert_eq. }
    assert (Hs1 : ∀ s, s ≠ data dst → buf_of w1 s = buf_of w s).
    { intros s Hs. unfold buf_of. by rewrite Hb1, list_lookup_insert_ne. }
    rewrite IH.
    + rewrite Hb1, list_insert_insert_eq, Hd1. f_equal.
      symmetry. unfold write_upd at 1. cbn [foldl]. by rewrite <- (Hval w idx).
    + by rewrite Hb1, length_insert.
    + intros w2 idx' Hsame. apply Hval. intros s Hs. rewrite (Hsame s Hs).
      by apply Hs1.
Qed.

Lemma assign_world_bufs dst src w :
  data dst ≠ data src →
  (data dst < length (bufs w))%nat →
  bufs (assign_world dst src w)
  = <[data dst := write_upd (index dst)
                    (λ _ idx, buf_get (buf_of w (data src)) (index src idx))
                    (indices (shape dst)) (buf_of w (data dst))]> (bufs w).
Proof.
  intros Hne Hd. unfold assign_world.
  apply (foldl_nd_set_bufs dst (λ w' idx, nd_get w' src idx)); [done|].
  intros w1 idx Hsame. unfold nd_get. by rewrite Hsame.
Qed.

Lemma assigns_world_bufs dst a w :
  (data dst < length (bufs w))%nat →
  bufs (assigns_world dst a w)
  = <[data dst := write_upd (index dst) (λ _ _, a)
                    (indices (shape dst)) (buf_of w (data dst))]> (bufs w).
Proof.
  intros Hd. unfold assigns_world.
  by apply (foldl_nd_set_bufs dst (λ _ _, a)).
Qed.

(** The precise rules of the steps, for runs that must end normally. *)
Lemma wp_assign_pure E dst src (Q : unit → World → Prop) w :
  data dst ≠ data src →
  (data dst < length (bufs w))%nat →
  (∀ w', tens w' = tens w → log w' = log w →
     bufs w' = <[data dst := write_upd (index dst)
                    (λ _ idx, buf_get (buf_of w (data src)) (index src idx))
                    (indices (shape dst)) (buf_of w (data dst))]> (bufs w) →
     Q tt w') →
  wp E (ops_assign dst src) Q w.
Proof.
  intros Hne Hd HQ. apply wp_ops_assign, HQ.
  - apply assign_world_tens.
  - apply assign_world_log.
  - by apply assign_world_bufs.
Qed.


Lemma wp_new_Tensor_pure E sh (Q : tref → World → Prop) w :
  0 ≤ foldr Z.mul 1 sh →
  (∀ w', tens w' = tens w ++ [{| tensor := ndarray_of (length (bufs w)) sh;
                                 _useWeblas := false |}] →
     log w' = log w →
     bufs w' = bufs w ++ [zeros (foldr Z.mul 1 sh)] →
     Q (length (tens w)) w') →
  wp E (new_Tensor sh) Q w.
Proof.
  intros Hsh HQ. apply wp_new_Tensor; [|lia]. intros _. by apply HQ.
Qed.

Lemma wp_get_tensor_pure E t o (Q : ndarray → World → Prop) w :
  tens w !! t = Some o → Q (tensor o) w → wp E (get_tensor t) Q w.
Proof.
  intros Ho HQ. apply wp_get_tensor; [|by rewrite Ho].
  intros o' Ho'. rewrite Ho in Ho'. by injection Ho' as <-.
Qed.

Lemma wp_set_tensor_pure E t o v (Q : unit → World → Prop) w :
  tens w !! t = Some o →
  (∀ w', tens w' = <[t := {| tensor := v; _useWeblas := _useWeblas o |}]> (tens w) →
     log w' = log w → bufs w' = bufs w → Q tt w') →
  wp E (set_tensor t v) Q w.
Proof.
  intros Ho HQ. apply wp_set_tensor; [|by rewrite Ho].
  intros o' Ho'. rewrite Ho in Ho'. injection Ho' as <-. by apply HQ.
Qed.

Lemma wp_replaceTensorData_pure E t o d (Q : unit → World → Prop) w :
  tens w !! t = Some o →
  (∀ w', tens w' = <[t := {| tensor := {| data := d; shape := shape (tensor o);
                                          stride := stride (tensor o);
                                          offset := offset (tensor o) |};
                             _useWeblas := _useWeblas o |}]> (tens w) →
     log w' = log w → bufs w' = bufs w → Q tt w') →
  wp E (replaceTensorData t d) Q w.
Proof.
  intros Ho HQ. apply wp_replaceTensorData; [|by rewrite Ho].
  intros o' Ho'. rewrite Ho in Ho'. injection Ho' as <-. by apply HQ.
Qed.

(** ** Views of a row-major buffer *)

Lemma index_plain1 d n i : index (ndarray_of d [n]) [i] = i.
Proof. unfold index. simpl. lia. Qed.

Lemma index_plain2 d n m i j : index (ndarray_of d [n; m]) [i; j] = i * m + j.
Proof. unfold index. simpl. lia. Qed.

Lemma index_plain3 d n m p i j k :
  index (ndarray_of d [n; m; p]) [i; j; k] = (i * m + j) * p + k.
Proof. unfold index. simpl. lia. Qed.

Lemma index_window v ir ic C a b i j k :
  0 ≤ a → 0 ≤ b →
  index (lo (hi v [ir; ic; C]) [a; b; 0]) [i; j; k] = index v [a + i; b + j; k].
Proof.
  intros Ha Hb. unfold index, lo, hi. cbn [offset stride].
  destruct (stride v) as [|s0 [|s1 [|s2 [|s3 rest]]]]; simpl;
    rewrite ?bool_decide_eq_true_2 by lia; lia.
Qed.

Lemma shape_window v H W C h w c a b :
  shape v = [H; W; C] → 0 ≤ a → 0 ≤ b → 0 ≤ h → 0 ≤ w → 0 ≤ c →
  shape (lo (hi v [h; w; c]) [a; b; 0]) = [h - a; w - b; c].
Proof.
  intros Hsh Ha Hb Hh Hw Hc. unfold lo, hi. cbn [shape]. rewrite Hsh. simpl.
  rewrite !bool_decide_eq_true_2 by lia. by rewrite Z.sub_0_r.
Qed.

Lemma padInput_same this x w xo H Wd C pT pB pL pR :
  borderMode this = "same" →
  tens w !! x = Some xo →
  shape (tensor xo) = [H; Wd; C] →
  inputPadding this = Some (pT, pB, pL, pR) →
  0 ≤ H → 0 ≤ Wd → 0 ≤ C → 0 ≤ pT → 0 ≤ pB → 0 ≤ pL → 0 ≤ pR →
  (data (tensor xo) < length (bufs w))%nat →
  wp False (_padInput this x)
    (λ r w', ∃ B,
       r = x
       ∧ bufs w' = bufs w ++ [B]
       ∧ tens w'
         = <[x := {| tensor := ndarray_of (length (bufs w))
                                 [H + pT + pB; Wd + pL + pR; C];
                     _useWeblas := _useWeblas xo |}]>
             (tens w ++ [{| tensor := ndarray_of (length (bufs w))
                                        [H + pT + pB; Wd + pL + pR; C];
                            _useWeblas := false |}])
       ∧ log w' = log w
       ∧ Z.of_nat (length B) = (H + pT + pB) * (Wd + pL + pR) * C
       ∧ ∀ r q c, 0 ≤ r < H + pT + pB → 0 ≤ q < Wd + pL + pR → 0 ≤ c < C →
           buf_get B ((r * (Wd + pL + pR) + q) * C + c)
           = padded (get3 w (tensor xo)) H Wd pT pL r q c) w.
Proof.
  intros Hsame Hxo Hsh Hpad HH HW HC HpT HpB HpL HpR Hxd.
  assert (Hx : (x < length (tens w))%nat) by by eapply lookup_lt_Some.
  unfold _padInput. rewrite bool_decide_eq_true_2 by done.
  apply wp_bind, (wp_get_tensor_pure _ _ xo); [done|]. rewrite Hsh.
  apply wp_bind, wp_defined; [|by rewrite Hpad]. rewrite Hpad. intros ? [= <-].
  set (H' := H + pT + pB). set (W' := Wd + pL + pR).
  assert (Hn : 0 ≤ foldr Z.mul 1 [H'; W'; C]).
  { simpl. apply Z.mul_nonneg_nonneg; [unfold H'; lia|].
    apply Z.mul_nonneg_nonneg; [unfold W'; lia|lia]. }
  apply wp_bind, wp_new_Tensor_pure; [done|]. intros w1 Ht1 Hl1 Hb1.
  set (d := length (bufs w)) in *.
  set (no := {| tensor := ndarray_of d [H'; W'; C]; _useWeblas := false |}) in *.
  assert (Hno1 : tens w1 !! length (tens w) = Some no).
  { by rewrite Ht1, lookup_app_r, Nat.sub_diag by lia. }
  assert (Hxo1 : tens w1 !! x = Some xo).
  { by rewrite Ht1, lookup_app_l by lia. }
  apply wp_bind, (wp_get_tensor_pure _ _ no); [done|].
  apply wp_bind, (wp_get_tensor_pure _ _ xo); [done|].
  apply wp_bind, wp_assign_pure.
  { simpl. lia. }
  { simpl. rewrite Hb1, length_app. simpl. lia. }
  intros w2 Ht2 Hl2 Hb2.
  apply wp_bind, (wp_get_tensor_pure _ _ no); [by rewrite Ht2|].
  apply wp_bind, (wp_set_tensor_pure _ _ xo); [by rewrite Ht2|].
  intros w3 Ht3 Hl3 Hb3. apply wp_ret.
  set (dst := lo (hi (tensor no) [H + pT; Wd + pL; C]) [pT; pL; 0]) in *.
  assert (Hdd : data dst = d) by done.
  assert (Hdst : buf_of w1 (data dst) = zeros (foldr Z.mul 1 [H'; W'; C])).
  { unfold buf_of. by rewrite Hdd, Hb1, lookup_app_r, Nat.sub_diag by done. }
  assert (Hsrc : buf_of w1 (data (tensor xo)) = buf_of w (data (tensor xo))).
  { apply buf_of_eq. by rewrite Hb1, lookup_app_l. }
  assert (Hshd : shape dst = [H; Wd; C]).
  { unfold dst. rewrite (shape_window _ H' W' C) by (done || lia).
    f_equal; [lia|]. f_equal. lia. }
  assert (Hg : ∀ i j k, index dst [i; j; k] = ((pT + i) * W' + (pL + j)) * C + k).
  { intros i j k. unfold dst. rewrite index_window by done. apply index_plain3. }
  rewrite Hdst, Hsrc, Hshd, Hdd in Hb2.
  set (B := write_upd _ _ _ _) in Hb2.
  exists B. split; [done|]. split; [|split; [|split; [|split]]].
  - rewrite Hb3, Hb2, Hb1.
    rewrite insert_app_r_alt by done. by rewrite Nat.sub_diag.
  - by rewrite Ht3, Ht2, Ht1.
  - by rewrite Hl3, Hl2, Hl1.
  - unfold B. rewrite write_upd_length, zeros_length. simpl in Hn |- *. lia.
  - intros r q c Hr Hq Hc. unfold B.
    unfold padded. case_bool_decide as Hin.
    + replace ((r * W' + q) * C + c) with (index dst [r - pT; q - pL; c]).
      2:{ rewrite Hg. f_equal. f_equal; lia. }
      rewrite write_upd_get.
      * done.
      * apply NoDup_indices.
      * apply elem_of_indices_3. exists (r - pT), (q - pL), c. repeat split; lia.
      * intros idx' (i & j & k & -> & Hi & Hj & Hk)%elem_of_indices_3.
        rewrite !Hg. intros Heq.
        apply rm3_inj in Heq as (? & ? & ?); [|lia..].
        f_equal; [lia|]. f_equal; [lia|]. by f_equal.
      * rewrite Hg, zeros_length. simpl.
        pose proof (rm3_bound H' W' C (pT + (r - pT)) (pL + (q - pL)) c
                      ltac:(lia) ltac:(lia) ltac:(lia)). lia.
    + rewrite write_upd_get_other.
      * apply buf_get_zeros. simpl.
        pose proof (rm3_bound H' W' C r q c ltac:(lia) ltac:(lia) ltac:(lia)). lia.
      * intros idx' (i & j & k & -> & Hi & Hj & Hk)%elem_of_indices_3.
        rewrite Hg. intros Heq.
        apply rm3_inj in Heq as (? & ? & ?); [|lia..]. lia.
Qed.

(** ** Padding *)

(** C9, as the code has it.  In valid mode [_padInput] does nothing.  In
    same mode it returns the wrapper it was given, rebound in place to a
    new buffer: every buffer that existed, the input data among them, is
    left as it was; the new buffer is appended to the store; the wrapper's
    view is the whole row-major array of shape
    [H + padTop + padBottom, W + padLeft + padRight, C]; that array holds
    the input at offset [(padTop, padLeft, 0)] and zero elsewhere; and no
    other wrapper of the caller changes. *)
Theorem padInput_effect (this : Layer) (x : tref) (w : World) :
  (borderMode this ≠ "same" → _padInput this x w = Ok (x, w))
  ∧ ∀ xo H Wd C pT pB pL pR,
      borderMode this = "same" →
      tens w !! x = Some xo →
      shape (tensor xo) = [H; Wd; C] →
      inputPadding this = Some (pT, pB, pL, pR) →
      0 ≤ H → 0 ≤ Wd → 0 ≤ C → 0 ≤ pT → 0 ≤ pB → 0 ≤ pL → 0 ≤ pR →
      (data (tensor xo) < length (bufs w))%nat →
      ∃ w' B,
        _padInput this x w = Ok (x, w')
        ∧ bufs w' = bufs w ++ [B]
        ∧ tens w' !! x
          = Some {| tensor := ndarray_of (length (bufs w))
                                [H + pT + pB; Wd + pL + pR; C];
                    _useWeblas := _useWeblas xo |}
        ∧ (∀ t, t ≠ x → (t < length (tens w))%nat → tens w' !! t = tens w !! t)
        ∧ ∀ r q c, 0 ≤ r < H + pT + pB → 0 ≤ q < Wd + pL + pR → 0 ≤ c < C →
            get3 w' (ndarray_of (length (bufs w)) [H + pT + pB; Wd + pL + pR; C]) r q c
            = padded (get3 w (tensor xo)) H Wd pT pL r q c.
Proof.
  split.
  - intros Hb. unfold _padInput. by rewrite bool_decide_eq_false_2.
  - intros xo H Wd C pT pB pL pR Hsame Hxo Hsh Hpad HH HW HC HpT HpB HpL HpR Hxd.
    destruct (wp_total _ _ _
      (padInput_same this x w xo H Wd C pT pB pL pR Hsame Hxo Hsh Hpad
         HH HW HC HpT HpB HpL HpR Hxd))
      as (r & w' & Hrun & B & -> & Hb & Ht & Hl & Hlen & Hget).
    exists w', B. split; [done|]. split; [done|].
    assert (Hx : (x < length (tens w))%nat) by by eapply lookup_lt_Some.
    split; [|split].
    + rewrite Ht. apply list_lookup_insert_eq. rewrite length_app. lia.
    + intros t Hne Hlt. rewrite Ht, list_lookup_insert_ne by done.
      by rewrite lookup_app_l.
    + intros r q c Hr Hq Hc. rewrite <- Hget by done.
      unfold get3, nd_get. rewrite index_plain3. f_equal.
      unfold buf_of. cbn [data ndarray_of].
      by rewrite Hb, lookup_app_r, Nat.sub_diag.
Qed.

Lemma padInput_effect_witness :
  ∃ w' B,
    _padInput example_layer_same 0%nat (example_world false) = Ok (0%nat, w')
    ∧ bufs w' = bufs (example_world false) ++ [B]
    ∧ get3 w' (ndarray_of 3 [7; 7; 1]) 1 1 0 = Num 0
    ∧ get3 w' (ndarray_of 3 [7; 7; 1]) 0 3 0 = Num 0
    ∧ get3 w' (ndarray_of 3 [7; 7; 1]) 5 5 0 = Num 24.
Proof.
  destruct (proj2 (padInput_effect example_layer_same 0%nat (example_world false))
              (plain_tensor 0 [5; 5; 1] false) 5 5 1 1 1 1 1
              eq_refl eq_refl eq_refl eq_refl
              ltac:(lia) ltac:(lia) ltac:(lia) ltac:(lia) ltac:(lia) ltac:(lia)
              ltac:(lia) ltac:(simpl; lia))
    as (w' & B & Hrun & Hb & _ & _ & Hget).
  exists w', B. split; [exact Hrun|]. split; [exact Hb|].
  split; [|split].
  - exact (Hget 1 1 0 ltac:(lia) ltac:(lia) ltac:(lia)).
  - exact (Hget 0 3 0 ltac:(lia) ltac:(lia) ltac:(lia)).
  - exact (Hget 5 5 0 ltac:(lia) ltac:(lia) ltac:(lia)).
Defined.

(** C9, counterexample to the claim as stated: in same mode the tensor
    that comes back is the caller's own wrapper, and its view has been
    changed in place from the 5 by 5 by 1 input to the 7 by 7 by 1 padded
    array. *)
Lemma padInput_rebinds_caller_wrapper :
  ∃ w',
    _padInput example_layer_same 0%nat (example_world false) = Ok (0%nat, w')
    ∧ tens (example_world false) !! 0%nat = Some (plain_tensor 0 [5; 5; 1] false)
    ∧ tens w' !! 0%nat = Some (plain_tensor 3 [7; 7; 1] false)
    ∧ tens w' !! 0%nat ≠ tens (example_world false) !! 0%nat.
Proof.
  eexists. split; [vm_compute; reflexivity|].
  split; [reflexivity|]. split; [reflexivity|]. discriminate.
Qed.

(** ** Bias *)

Lemma calc_with_bias l b x w :
  _calcOutputShape (with_bias l b) x w
  = match _calcOutputShape l x w with
    | Ok (l', w') => Ok (with_bias l' b, w')
    | Throw msg => Throw msg
    | Diverge => Diverge
    | Stuck => Stuck
    end.
Proof.
  unfold _calcOutputShape. cbn [with_bias kernelShape subsample borderMode].
  unfold mbind, M_bind.
  destruct (get_tensor x w) as [[xt w1]| | |]; [|done..].
  destruct (shape_at xt 0 w1) as [[ir w2]| | |]; [|done..].
  destruct (shape_at xt 1 w2) as [[ic w3]| | |]; [|done..].
  destruct (kernelShape l) as [[F kR] kC]. destruct (subsample l) as [s0 s1].
  match goal with |- match ?c with _ => _ end = _ => destruct c as [[oR w4]| | |]; [|done..] end.
  match goal with |- match ?c with _ => _ end = _ => destruct c as [[oC w5]| | |]; [|done..] end.
  reflexivity.
Qed.

Lemma same_out_bind {A} (c : M A) (k1 k2 : A → M (tref * Layer))
    (P : A → World → Prop) w :
  wp True c P w →
  (∀ a w', P a w' → output_of (k1 a w') = output_of (k2 a w')) →
  output_of ((c ≫= k1) w) = output_of ((c ≫= k2) w).
Proof.
  unfold wp, mbind, M_bind. intros HP Hk.
  destruct (c w) as [[a w']| | |]; [|done..]. by apply Hk.
Qed.

Lemma bind_Ok {A B} (c : M A) (k : A → M B) w a w' :
  c w = Ok (a, w') → (c ≫= k) w = k a w'.
Proof. unfold mbind, M_bind. by intros ->. Qed.

Lemma bind_bind_Ok {A B C} (c : M A) (k : A → M B) (k' : B → M C) w a w' :
  c w = Ok (a, w') → ((c ≫= k) ≫= k') w = (k a ≫= k') w'.
Proof. unfold mbind, M_bind. by intros ->. Qed.

Lemma entry_frame this x w :
  wp True
    (if bool_decide (dimOrdering this = "th")
     then get_tensor x ≫= λ xt, set_tensor x (transpose xt [1; 2; 0]%nat)
     else mret ())
    (λ _ w1, ext x [] w w1 ∧ length (tens w1) = length (tens w)) w.
Proof.
  case_bool_decide as Hth; [|apply wp_ret; split; [apply ext_refl|done]].
  apply wp_bind, wp_get_tensor; [|done]. intros xo Hxo.
  apply (frame_set_tensor x [] w); [by eapply lookup_lt_Some|apply ext_refl|].
  intros o w1 He1 _ Ht1 _. split; [done|]. by rewrite Ht1, length_insert.
Qed.

Lemma World_eq (w w' : World) :
  bufs w = bufs w' → tens w = tens w' → log w = log w' → w = w'.
Proof. destruct w, w'; simpl. by intros -> -> ->. Qed.

Lemma write_zeros g idxs n :
  write_upd g (λ _ _, Num 0) idxs (zeros n) = zeros n.
Proof.
  unfold write_upd. induction idxs as [|idx l IH]; simpl; [done|].
  replace (buf_set (zeros n) (g idx) (Num 0)) with (zeros n); [done|].
  unfold buf_set. case_bool_decide; [|done].
  destruct (decide (Z.to_nat (g idx) < length (zeros n))%nat) as [Hlt|Hge].
  - symmetry. apply list_insert_id. unfold zeros in *.
    rewrite length_replicate in Hlt. by apply lookup_replicate_2.
  - symmetry. apply list_insert_ge. lia.
Qed.

Lemma assigns_zero_noop dst w n :
  bufs w !! data dst = Some (zeros n) →
  assigns_world dst (Num 0) w = w.
Proof.
  intros Hb. assert (Hd : (data dst < length (bufs w))%nat) by by eapply lookup_lt_Some.
  apply World_eq.
  - rewrite assigns_world_bufs by done. unfold buf_of. rewrite Hb. simpl.
    rewrite write_zeros. by apply list_insert_id.
  - apply assigns_world_tens.
  - apply assigns_world_log.
Qed.

Lemma bias_init_noop (mm b : tref) (F : Z) w mo bo db n :
  tens w !! mm = Some mo →
  bufs w !! data (tensor mo) = Some (zeros n) →
  tens w !! b = Some bo →
  tensor bo = ndarray_of db [F] →
  bufs w !! db = Some (zeros F) →
  for_each (seqZ 0 F) (λ n,
    mt ← get_tensor mm;
    b' ← defined (Some b);
    bt ← get_tensor b';
    bn ← read_at bt [n];
    ops_assigns (pick mt [None; Some n]) bn) w = Ok (tt, w).
Proof.
  intros Hmo Hmb Hbo Hbt Hbb.
  assert (Hall : ∀ l : list Z, (∀ i, i ∈ l → 0 ≤ i < F) →
    for_each l (λ n,
      mt ← get_tensor mm;
      b' ← defined (Some b);
      bt ← get_tensor b';
      bn ← read_at bt [n];
      ops_assigns (pick mt [None; Some n]) bn) w = Ok (tt, w)).
  { induction l as [|i l IH]; intros Hl; simpl; [done|].
    erewrite bind_Ok; [apply IH; intros j Hj; apply Hl; by right|].
    erewrite bind_Ok; [|unfold get_tensor; erewrite bind_Ok; [reflexivity|];
                         unfold get_obj; by rewrite Hmo].
    erewrite bind_Ok; [|reflexivity].
    erewrite bind_Ok; [|unfold get_tensor; erewrite bind_Ok; [reflexivity|];
                         unfold get_obj; by rewrite Hbo].
    erewrite bind_Ok; [|reflexivity].
    unfold ops_assigns, modify. f_equal. f_equal.
    assert (Hz : nd_get w (tensor bo) [i] = Num 0).
    { unfold nd_get. rewrite Hbt, index_plain1. unfold buf_of. cbn [data ndarray_of].
      rewrite Hbb. apply buf_get_zeros. apply Hl. by left. }
    rewrite Hz. by apply (assigns_zero_noop _ _ n). }
  apply Hall. intros i Hi. by apply elem_of_seqZ in Hi.
Qed.

Lemma same_out_calc l b x (k1 k2 : Layer → M (tref * Layer)) w :
  (∀ l' w', _calcOutputShape l x w = Ok (l', w') →
     output_of (k1 (with_bias l' b) w') = output_of (k2 l' w')) →
  output_of ((_calcOutputShape (with_bias l b) x ≫= k1) w)
  = output_of ((_calcOutputShape l x ≫= k2) w).
Proof.
  intros Hk. unfold mbind, M_bind. rewrite calc_with_bias.
  destruct (_calcOutputShape l x w) as [[l' w']| | |]; [|done..]. by apply Hk.
Qed.

Lemma same_out_cont {A} (c : M A) (k1 k2 : A → M (tref * Layer)) w :
  (∀ a w', output_of (k1 a w') = output_of (k2 a w')) →
  output_of ((c ≫= k1) w) = output_of ((c ≫= k2) w).
Proof.
  intros Hk. apply (same_out_bind _ _ _ (λ _ _, True)); [by apply wp_const|].
  intros a w' _. apply Hk.
Qed.

Lemma call_with_bias l b x w bo F db wr wo pl :
  bias l = false →
  (kernelShape l).1.1 = F →
  tens w !! b = Some bo → tensor bo = ndarray_of db [F] →
  bufs w !! db = Some (zeros F) →
  b ≠ x →
  _wRowsMat l = Some wr → tens w !! wr = Some wo → shape (tensor wo) = [pl; F] →
  wr ≠ x →
  output_of (call (with_bias l (Some b)) x w) = output_of (call l x w).
Proof.
  intros Hbias HF Hbo Hbt Hbb Hbx Hwr Hwo Hwsh Hwx.
  assert (Hbl : (b < length (tens w))%nat) by by eapply lookup_lt_Some.
  assert (Hdl : (db < length (bufs w))%nat) by by eapply lookup_lt_Some.
  assert (Hwl : (wr < length (tens w))%nat) by by eapply lookup_lt_Some.
  unfold call.
  cbn [with_bias dimOrdering].
  eapply same_out_bind; [apply entry_frame|].
  intros [] w1 [He1 Hlen1].
  (* the geometry *)
  apply same_out_calc. intros l2 w2 Hcalc.
  destruct (wp_inv _ _ _ _ _ _ (calcOutputShape_frame l x w1) Hcalc)
    as (-> & [xo1 Hxo1] & [[oR oC] oF] & pad & -> & HoF).
  simpl in HoF. rewrite HF in HoF. subst oF. clear Hcalc.
  assert (Hx : (x < length (tens w))%nat).
  { rewrite <- Hlen1. by eapply lookup_lt_Some. }
  change (_padInput (with_bias (set_geometry l (oR, oC, F) pad) (Some b)) x)
    with (_padInput (set_geometry l (oR, oC, F) pad) x).
  eapply same_out_bind; [apply padInput_frame|].
  intros ? w2 [-> He2].
  change (_im2col (with_bias (set_geometry l (oR, oC, F) pad) (Some b)) x)
    with (_im2col (set_geometry l (oR, oC, F) pad) x).
  eapply same_out_bind; [apply im2col_frame|].
  intros im w3 [Him He3].
  assert (He : ext x [] w w3).
  { apply (ext_trans x [] [] w w2 w3); [done| |done].
    apply (ext_trans x [] [] w w1 w2); [done|done|done]. }
  assert (Him' : (length (tens w) ≤ im)%nat).
  { subst im. apply (ext_ntens x [] w w2).
    apply (ext_trans x [] [] w w1 w2); [done|done|done]. }
  clear He1 He2 He3 Hxo1 Him.
  cbn [with_bias set_geometry _wRowsMat outputShape kernelShape fst snd bias
       weights_b activation dimOrdering].
  rewrite Hwr, Hbias, HF.
  apply (same_out_bind _ _ _ (λ a w', a = wr ∧ w' = w3)); [by apply wp_ret|].
  intros ? ? [-> ->].
  apply (same_out_bind _ _ _ (λ a w', a = (oR, oC, F) ∧ w' = w3)); [by apply wp_ret|].
  intros ? ? [-> ->].
  (* the product matrix *)
  apply (same_out_bind _ _ _ (λ a w', a = length (tens w3)
                                      ∧ w' = alloc_world [oR * oC; F] w3)).
  { apply wp_new_Tensor; [|done]. done. }
  intros mm w4 [-> ->].
  set (w4 := alloc_world [oR * oC; F] w3).
  assert (He4 : ext x [] w w4) by by apply ext_alloc.
  assert (Hb4 : tens w4 !! b = Some bo).
  { rewrite (ext_tens _ _ _ _ He4); done. }
  assert (Hd4 : bufs w4 !! db = Some (zeros F)).
  { rewrite (ext_bufs _ _ _ _ He4); done. }
  assert (Hw4 : tens w4 !! wr = Some wo).
  { rewrite (ext_tens _ _ _ _ He4); done. }
  assert (Hm4 : tens w4 !! length (tens w3)
                = Some {| tensor := ndarray_of (length (bufs w3)) [oR * oC; F];
                          _useWeblas := false |}).
  { unfold w4, alloc_world. cbn [tens]. by rewrite lookup_app_r, Nat.sub_diag. }
  assert (Hmb4 : bufs w4 !! length (bufs w3) = Some (zeros (foldr Z.mul 1 [oR * oC; F]))).
  { unfold w4, alloc_world. cbn [bufs]. by rewrite lookup_app_r, Nat.sub_diag. }
  (* the bias is written, to no effect *)
  erewrite (bind_Ok (for_each _ _));
    [|by apply (bias_init_noop _ _ _ _ _ bo db _ Hm4 Hmb4 Hb4 Hbt Hd4)].
  rewrite (bind_Ok (mret ()) _ w4 () w4) by done.
  apply (same_out_bind _ _ _ (λ a w', w' = w4)).
  { apply wp_get_obj; done. }
  intros xo ? ->.
  destruct (_useWeblas xo);
    [|repeat (apply same_out_cont; intros ? ?); reflexivity].
  (* the accelerated backend reads the bias as a row of zeros *)
  assert (HL : (defined (Some b) ≫= λ b0, get_tensor b0 ≫= λ bt, read_buf (data bt)) w4
               = Ok (zeros F, w4)).
  { unfold defined, get_tensor, get_obj, read_buf, mbind, M_bind, mret, M_ret.
    rewrite Hb4. unfold buf_of. rewrite Hbt. cbn [data ndarray_of]. by rewrite Hd4. }
  assert (HR : (get_tensor wr ≫= λ wt, shape_at wt 1 ≫= λ n, mret (zeros n)) w4
               = Ok (zeros F, w4)).
  { unfold get_tensor, get_obj, shape_at, mbind, M_bind, mret, M_ret.
    rewrite Hw4, Hwsh. done. }
  rewrite (bind_bind_Ok _ _ _ _ _ _ HL). symmetry. rewrite (bind_bind_Ok _ _ _ _ _ _ HR).
  repeat (apply same_out_cont; intros ? ?). reflexivity.
Qed.

Lemma setWeights_with_bias l W b rest0 rest1 w :
  bias l = false →
  weights_b l = None →
  setWeights (with_bias l None) (W :: b :: rest1) w
  = match setWeights l (W :: rest0) w with
    | Ok (l', w') => Ok (with_bias l' (Some b), w')
    | Throw msg => Throw msg
    | Diverge => Diverge
    | Stuck => Stuck
    end.
Proof.
  intros Hbias Hb. unfold setWeights, super_setWeights.
  cbn [with_bias dimOrdering bias lookup list_lookup]. rewrite Hbias, Hb.
  change (_w2row (set_weights (with_bias l None) (Some W) (Some b)))
    with (_w2row (set_weights l (Some W) None)).
  generalize (if bool_decide (dimOrdering l = "th")
              then defined (Some W) ≫= λ W0, get_tensor W0
                   ≫= λ t, set_tensor W0 (transpose t [2; 3; 1; 0]%nat)
              else mret ()).
  intros c. unfold mbind, M_bind.
  destruct (c w) as [[[] w1]| | |]; [|done..].
  destruct (_w2row (set_weights l (Some W) None) w1) as [[m w2]| | |]; done.
Qed.

Lemma constructor_with_bias acts attrs :
  constructor acts (attrs_with_bias attrs true)
  = match constructor acts (attrs_with_bias attrs false) with
    | Ok l => Ok (with_bias l None)
    | Throw msg => Throw msg
    | Diverge => Diverge
    | Stuck => Stuck
    end.
Proof.
  unfold constructor. cbn [attrs_with_bias attr_borderMode attr_dimOrdering attr_name
    attr_nbFilter attr_nbRow attr_nbCol attr_activation attr_subsample attr_bias].
  repeat case_bool_decide; done.
Qed.

Lemma constructor_fields acts attrs l :
  constructor acts attrs = Ok l →
  kernelShape l = (default 1 (attr_nbFilter attrs), default 3 (attr_nbRow attrs),
                   default 3 (attr_nbCol attrs))
  ∧ bias l = default true (attr_bias attrs)
  ∧ weights_W l = None ∧ weights_b l = None ∧ _wRowsMat l = None.
Proof.
  unfold constructor. repeat case_bool_decide; try done. by intros [= <-].
Qed.

(** C6.  Construct the layer without bias and with bias, give the second
    a bias tensor of zeros of shape [numFilters], run both on the same
    input from the same stores: the two runs end alike (both fail in the
    same way, or both return), with the same returned wrapper and the same
    stores, buffer for buffer.  The bias tensor is a wrapper of its own
    (neither the input nor the weight tensor), and the input wrapper exists
    when the layer is built. *)
Theorem bias_off_is_zero_bias (activations : string → option Activation)
    (attrs : Attrs) (W b x : tref) (rest0 rest1 : list tref) (w : World)
    (bo : TensorObj) (db : loc) :
  tens w !! b = Some bo →
  tensor bo = ndarray_of db [default 1 (attr_nbFilter attrs)] →
  bufs w !! db = Some (zeros (default 1 (attr_nbFilter attrs))) →
  b ≠ x → b ≠ W → (x < length (tens w))%nat →
  output_of (run_layer activations (attrs_with_bias attrs false) (W :: rest0) x w)
  = output_of (run_layer activations (attrs_with_bias attrs true) (W :: b :: rest1) x w).
Proof.
  intros Hbo Hbt Hbb Hbx HbW Hx. unfold run_layer.
  rewrite constructor_with_bias.
  destruct (constructor activations (attrs_with_bias attrs false)) as [l| | |] eqn:Hc;
    [|done..].
  apply constructor_fields in Hc as (Hk & Hbias & _ & Hwb & _).
  cbn in Hk, Hbias.
  rewrite (setWeights_with_bias l W b rest0 rest1) by done.
  pose proof (setWeights_frame l (W :: rest0) w) as Hf. unfold wp in Hf.
  destruct (setWeights l (W :: rest0) w) as [[l1 w1]| | |]; [|done..].
  destruct Hf as (W' & [= <-] & HWlt & -> & (wo & pl & Hwo & Hwsh & _) & Hall).
  assert (He : ext W [EvW2row] w w1) by by apply Hall.
  symmetry.
  eapply (call_with_bias _ b x w1 bo (default 1 (attr_nbFilter attrs)) db
            (length (tens w)) wo pl).
  - done.
  - cbn. by rewrite Hk.
  - rewrite (ext_tens _ _ _ _ He); [done| |done]. by eapply lookup_lt_Some.
  - done.
  - rewrite (ext_bufs _ _ _ _ He); [done|]. by eapply lookup_lt_Some.
  - done.
  - done.
  - done.
  - rewrite Hwsh. by rewrite Hk.
  - lia.
Qed.

Lemma bias_off_is_zero_bias_witness :
  output_of (run_layer linear_only (attrs_with_bias no_attrs false) [1]%nat 0%nat
               (example_world false))
  = output_of (run_layer linear_only (attrs_with_bias no_attrs true) [1; 2]%nat 0%nat
                 (example_world false)).
Proof.
  exact (bias_off_is_zero_bias linear_only no_attrs 1%nat 2%nat 0%nat [] []
           (example_world false) (plain_tensor 2 [1] false) 2%nat
           eq_refl eq_refl eq_refl ltac:(lia) ltac:(lia) ltac:(simpl; lia)).
Defined.

(** ** Loops that must end *)

Lemma wp_for_seqZ_from E (I : Z → World → Prop) (s : Z) (m : nat)
    (body : Z → M unit) (Q : unit → World → Prop) w :
  I s w →
  (∀ i w1, s ≤ i < s + Z.of_nat m → I i w1 → wp E (body i) (λ _ w2, I (i + 1) w2) w1) →
  (∀ w1, I (s + Z.of_nat m) w1 → Q tt w1) →
  wp E (for_each (seqZ s (Z.of_nat m)) body) Q w.
Proof.
  revert s w. induction m as [|m IH]; intros s w HI Hbody HQ.
  - simpl. apply wp_ret, HQ. by rewrite Z.add_0_r.
  - rewrite seqZ_cons by lia. simpl.
    apply wp_bind. eapply wp_mono; [|apply Hbody; [lia|done]].
    intros ? w2 HI2. replace (Z.pred (Z.of_nat (S m))) with (Z.of_nat m) by lia.
    apply IH.
    + by replace (Z.succ s) with (s + 1) by lia.
    + intros i w1 Hi. apply Hbody. lia.
    + intros w1 HI1. apply HQ. by replace (s + Z.of_nat (S m)) with (Z.succ s + Z.of_nat m) by lia.
Qed.

Lemma wp_for_seqZ E (I : Z → World → Prop) (n : Z)
    (body : Z → M unit) (Q : unit → World → Prop) w :
  0 ≤ n →
  I 0 w →
  (∀ i w1, 0 ≤ i < n → I i w1 → wp E (body i) (λ _ w2, I (i + 1) w2) w1) →
  (∀ w1, I n w1 → Q tt w1) →
  wp E (for_each (seqZ 0 n) body) Q w.
Proof.
  intros Hn HI Hbody HQ. rewrite <- (Z2Nat.id n) by done.
  apply (wp_for_seqZ_from E I 0 (Z.to_nat n)); [done|..].
  - intros i w1 Hi. apply Hbody. lia.
  - intros w1. rewrite Z.add_0_l, Z2Nat.id by done. apply HQ.
Qed.

Lemma rounds_spec limit step :
  0 < step →
  0 ≤ rounds limit step
  ∧ limit < rounds limit step * step
  ∧ (∀ t, 0 ≤ t < rounds limit step → t * step ≤ limit).
Proof.
  intros Hs. unfold rounds. case_bool_decide as Hl.
  - split; [done|]. split; [lia|]. intros t Ht. lia.
  - pose proof (Z.div_mod limit step ltac:(lia)) as Hdm.
    pose proof (Z.mod_pos_bound limit step Hs) as Hm.
    assert (0 ≤ limit / step) by (apply Z.div_pos; lia).
    split; [lia|]. split; [nia|]. intros t Ht. nia.
Qed.

Lemma wp_for_step_from E {St} (I : Z → St → World → Prop) (fuel : nat)
    (limit step : Z) (body : Z → St → M St) (t : Z) (st : St)
    (Q : St → World → Prop) w :
  0 < step →
  0 ≤ t ≤ rounds limit step →
  rounds limit step - t ≤ Z.of_nat fuel →
  I t st w →
  (∀ t1 st1 w1, 0 ≤ t1 < rounds limit step → I t1 st1 w1 →
     wp E (body (t1 * step) st1) (λ st2 w2, I (t1 + 1) st2 w2) w1) →
  (∀ st1 w1, I (rounds limit step) st1 w1 → Q st1 w1) →
  wp E (for_step fuel (t * step) limit step body st) Q w.
Proof.
  intros Hs. pose proof (rounds_spec limit step Hs) as (Hr0 & Hr1 & Hr2).
  revert t st w. induction fuel as [|fuel IH]; intros t st w Ht Hfuel HI Hbody HQ.
  - assert (t = rounds limit step) as -> by lia.
    simpl. rewrite bool_decide_eq_false_2 by lia. by apply wp_ret, HQ.
  - simpl. case_bool_decide as Hle.
    + assert (Hlt : t < rounds limit step).
      { destruct (decide (t = rounds limit step)) as [->|]; lia. }
      apply wp_bind. eapply wp_mono; [|apply Hbody; [lia|done]].
      intros st2 w2 HI2.
      replace (t * step + step) with ((t + 1) * step) by lia.
      apply IH; [lia|lia|done|done|done].
    + assert (t = rounds limit step) as ->.
      { destruct (decide (t = rounds limit step)) as [->|Hne]; [done|].
        specialize (Hr2 t ltac:(lia)). lia. }
      by apply wp_ret, HQ.
Qed.

Lemma wp_for_step_rounds E {St} (I : Z → St → World → Prop)
    (limit step : Z) (body : Z → St → M St) (st : St)
    (Q : St → World → Prop) w :
  0 < step →
  I 0 st w →
  (∀ t1 st1 w1, 0 ≤ t1 < rounds limit step → I t1 st1 w1 →
     wp E (body (t1 * step) st1) (λ st2 w2, I (t1 + 1) st2 w2) w1) →
  (∀ st1 w1, I (rounds limit step) st1 w1 → Q st1 w1) →
  wp E (for_step (Z.to_nat (limit + 1)) 0 limit step body st) Q w.
Proof.
  intros Hs HI Hbody HQ.
  pose proof (rounds_spec limit step Hs) as (Hr0 & Hr1 & Hr2).
  change 0 with (0 * step) at 1.
  apply (wp_for_step_from E I); [done|lia| |done|done|done].
  unfold rounds in *. case_bool_decide; [lia|].
  assert (limit / step ≤ limit); [|lia].
  apply Z.div_le_upper_bound; [done|]. nia.
Qed.

(** ** Sums *)







(** ** Copies through a temporary tensor *)

Lemma wp_via_temp E {A} (p s q t : tref) (sv : ndarray → ndarray)
    (fin : ndarray → ndarray → M A) (Q : A → World → Prop) w po so qo to :
  tens w !! p = Some po → tens w !! s = Some so →
  tens w !! q = Some qo → tens w !! t = Some to →
  p ≠ q → t ≠ q →
  data (tensor po) ≠ data (sv (tensor so)) →
  (data (tensor po) < length (bufs w))%nat →
  (∀ w',
     tens w' = <[q := {| tensor := {| data := data (tensor po);
                                      shape := shape (tensor qo);
                                      stride := stride (tensor qo);
                                      offset := offset (tensor qo) |};
                         _useWeblas := _useWeblas qo |}]> (tens w) →
     log w' = log w →
     bufs w' = <[data (tensor po) :=
                   write_upd (index (tensor po))
                     (λ _ idx, nd_get w (sv (tensor so)) idx)
                     (indices (shape (tensor po)))
                     (buf_of w (data (tensor po)))]> (bufs w) →
     wp E (fin (tensor to)
             {| data := data (tensor po); shape := shape (tensor qo);
                stride := stride (tensor qo); offset := offset (tensor qo) |}) Q w') →
  wp E (via_temp p s q t sv fin) Q w.
Proof.
  intros Hp Hs Hq Ht Hpq Htq Hne Hd HQ. unfold via_temp.
  apply wp_bind, (wp_get_tensor_pure _ _ po); [done|].
  apply wp_bind, (wp_get_tensor_pure _ _ so); [done|].
  apply wp_bind, wp_assign_pure; [done|done|]. intros w1 Ht1 Hl1 Hb1.
  apply wp_bind, (wp_get_tensor_pure _ _ po); [by rewrite Ht1|].
  apply wp_bind, (wp_replaceTensorData_pure _ _ qo); [by rewrite Ht1|].
  intros w2 Ht2 Hl2 Hb2.
  apply wp_bind, (wp_get_tensor_pure _ _ to).
  { by rewrite Ht2, list_lookup_insert_ne, Ht1. }
  eapply wp_bind, wp_get_tensor_pure.
  { rewrite Ht2. apply list_lookup_insert_eq. rewrite Ht1. by eapply lookup_lt_Some. }
  cbn [tensor]. apply HQ.
  - by rewrite Ht2, Ht1.
  - by rewrite Hl2, Hl1.
  - by rewrite Hb2, Hb1.
Qed.

(** ** Writes through the views of the source *)

Section writes.
Context (g : list Z → Z) (val : list Z → f32) (T : list f32).


Lemma write_plain3 A B C :
  (∀ a b c, g [a; b; c] = (a * B + b) * C + c) →
  Z.of_nat (length T) = A * B * C →
  ∀ a b c, 0 ≤ a < A → 0 ≤ b < B → 0 ≤ c < C →
    buf_get (write_upd g (λ _ idx, val idx) (indices [A; B; C]) T) ((a * B + b) * C + c)
    = val [a; b; c].
Proof.
  intros Hg HT a b c Ha Hb Hc. rewrite <- (Hg a b c). rewrite write_upd_get.
  - done.
  - apply NoDup_indices.
  - apply elem_of_indices_3. eauto 10.
  - intros idx' (a' & b' & c' & -> & Ha' & Hb' & Hc')%elem_of_indices_3.
    rewrite !Hg. intros (-> & -> & ->)%rm3_inj; done.
  - rewrite Hg. pose proof (rm3_bound A B C a b c Ha Hb Hc). lia.
Qed.

Lemma write_row N L n :
  (∀ t, g [t] = n * L + t) → Z.of_nat (length T) = N * L → 0 ≤ n < N →
  (∀ t, 0 ≤ t < L →
     buf_get (write_upd g (λ _ idx, val idx) (indices [L]) T) (n * L + t) = val [t])
  ∧ (∀ m t, m ≠ n → 0 ≤ t < L →
       buf_get (write_upd g (λ _ idx, val idx) (indices [L]) T) (m * L + t)
       = buf_get T (m * L + t)).
Proof.
  intros Hg HT Hn. split.
  - intros t Ht. rewrite <- (Hg t). rewrite write_upd_get.
    + done.
    + apply NoDup_indices.
    + apply elem_of_indices_1. eauto.
    + intros idx' (t' & -> & Ht')%elem_of_indices_1. rewrite !Hg.
      intros Heq. f_equal. lia.
    + rewrite Hg. pose proof (rm2_bound N L n t Hn Ht). lia.
  - intros m t Hm Ht. apply write_upd_get_other.
    intros idx' (t' & -> & Ht')%elem_of_indices_1. rewrite Hg.
    intros (? & ?)%rm2_inj; done.
Qed.

Lemma write_col L F n :
  (∀ t, g [t] = t * F + n) → Z.of_nat (length T) = L * F → 0 ≤ n < F →
  (∀ t, 0 ≤ t < L →
     buf_get (write_upd g (λ _ idx, val idx) (indices [L]) T) (t * F + n) = val [t])
  ∧ (∀ t f, f ≠ n → 0 ≤ f < F →
       buf_get (write_upd g (λ _ idx, val idx) (indices [L]) T) (t * F + f)
       = buf_get T (t * F + f)).
Proof.
  intros Hg HT Hn. split.
  - intros t Ht. rewrite <- (Hg t). rewrite write_upd_get.
    + done.
    + apply NoDup_indices.
    + apply elem_of_indices_1. eauto.
    + intros idx' (t' & -> & Ht')%elem_of_indices_1. rewrite !Hg.
      intros (-> & _)%rm2_inj; done.
    + rewrite Hg. pose proof (rm2_bound L F t n Ht Hn). lia.
  - intros t f Hf Hf'. apply write_upd_get_other.
    intros idx' (t' & -> & Ht')%elem_of_indices_1. rewrite Hg.
    intros (? & ?)%rm2_inj; done.
Qed.

End writes.

(** The views that the loops write through and read from. *)
Lemma index_row d N L n t :
  0 ≤ n → index (pick (ndarray_of d [N; L]) [Some n; None]) [t] = n * L + t.
Proof.
  intros Hn. unfold index, pick. simpl. rewrite !bool_decide_eq_true_2 by done.
  simpl. lia.
Qed.

Lemma shape_row d N L n :
  0 ≤ n → shape (pick (ndarray_of d [N; L]) [Some n; None]) = [L].
Proof. intros Hn. unfold pick. simpl. by rewrite !bool_decide_eq_true_2. Qed.

Lemma index_col d L F n t :
  0 ≤ n → index (pick (ndarray_of d [L; F]) [None; Some n]) [t] = t * F + n.
Proof.
  intros Hn. unfold index, pick. simpl. rewrite !bool_decide_eq_true_2 by done.
  simpl. lia.
Qed.

Lemma shape_col d L F n :
  0 ≤ n → shape (pick (ndarray_of d [L; F]) [None; Some n]) = [L].
Proof. intros Hn. unfold pick. simpl. by rewrite !bool_decide_eq_true_2. Qed.



Lemma get_filter w v n a b c :
  0 ≤ n →
  nd_get w (pick v [None; None; None; Some n]) [a; b; c] = nd_get w v [a; b; c; n].
Proof.
  intros Hn. unfold nd_get, index, pick. cbn [data offset stride].
  destruct (stride v) as [|s0 [|s1 [|s2 [|s3 [|s4 rest]]]]]; simpl;
    rewrite ?bool_decide_eq_true_2 by done; simpl; f_equal; lia.
Qed.

Lemma lookup_snoc {A} (l : list A) (a : A) : (l ++ [a]) !! length l = Some a.
Proof. by rewrite lookup_app_r, Nat.sub_diag. Qed.

Lemma lookup_snoc_Some {A} (l : list A) (a b : A) i :
  l !! i = Some b → (l ++ [a]) !! i = Some b.
Proof. intros H. rewrite lookup_app_l; [done|]. by eapply lookup_lt_Some. Qed.

Lemma length_snoc {A} (l : list A) (a : A) : length (l ++ [a]) = S (length l).
Proof. rewrite length_app. simpl. lia. Qed.

(** ** The filter matrix *)

Lemma w2row_spec E this w W Wo F kR kC C :
  weights_W this = Some W → kernelShape this = (F, kR, kC) →
  tens w !! W = Some Wo → shape (tensor Wo) !! 2%nat = Some C →
  (data (tensor Wo) < length (bufs w))%nat →
  0 ≤ F → 0 ≤ kR → 0 ≤ kC → 0 ≤ C →
  wp E (_w2row this)
    (λ r w', r = length (tens w)
       ∧ tens w' !! r = Some (plain_tensor (length (bufs w)) [kR * kC * C; F] false)
       ∧ ∃ T, bufs w' !! length (bufs w) = Some T
              ∧ Z.of_nat (length T) = kR * kC * C * F
              ∧ ∀ di dj c f, 0 ≤ di < kR → 0 ≤ dj < kC → 0 ≤ c < C → 0 ≤ f < F →
                  buf_get T (((di * kC + dj) * C + c) * F + f)
                  = get4 w (tensor Wo) di dj c f) w.
Proof.
  intros HW Hk HWo HC HdW HF HkR HkC HCn.
  assert (HWlt : (W < length (tens w))%nat) by by eapply lookup_lt_Some.
  unfold _w2row.
  apply wp_bind, wp_defined; [|by rewrite HW]. rewrite HW. intros ? [= <-].
  apply wp_bind, (wp_get_tensor_pure _ _ Wo); [done|].
  apply wp_bind, wp_shape_at; [|by rewrite HC]. rewrite HC. intros ? [= <-].
  rewrite Hk.
  set (L := kR * kC * C).
  assert (HL : 0 ≤ L) by (unfold L; nia).
  set (nb := length (bufs w)). set (nt := length (tens w)).
  apply wp_bind, wp_new_Tensor_pure; [simpl; nia|]. intros w1 Ht1 Hl1 Hb1.
  apply wp_bind, wp_new_Tensor_pure; [simpl; nia|]. intros w2 Ht2 Hl2 Hb2.
  apply wp_bind, wp_new_Tensor_pure; [simpl; nia|]. intros w3 Ht3 Hl3 Hb3.
  assert (Hnt1 : length (tens w1) = S nt) by (rewrite Ht1; apply length_snoc).
  assert (Hnt2 : length (tens w2) = S (S nt)) by (rewrite Ht2, length_snoc; lia).
  assert (Hnb1 : length (bufs w1) = S nb) by (rewrite Hb1; apply length_snoc).
  assert (Hnb2 : length (bufs w2) = S (S nb)) by (rewrite Hb2, length_snoc; lia).
  rewrite Hnt1, Hnt2. rewrite Hnb1 in Ht2. rewrite Hnb2 in Ht3.
  fold nb in Ht1.
  set (wrobj := plain_tensor nb [L; F] false).
  set (pobj := plain_tensor (S nb) [kR; kC; C] false).
  set (I := λ (n : Z) (w' : World),
    tens w' !! W = Some Wo
    ∧ tens w' !! nt = Some wrobj
    ∧ tens w' !! S nt = Some pobj
    ∧ (∃ qo, tens w' !! S (S nt) = Some qo ∧ shape (tensor qo) = [L]
             ∧ stride (tensor qo) = [1] ∧ offset (tensor qo) = 0)
    ∧ length (bufs w') = S (S (S nb))
    ∧ buf_of w' (data (tensor Wo)) = buf_of w (data (tensor Wo))
    ∧ (∃ P, bufs w' !! S nb = Some P ∧ Z.of_nat (length P) = L)
    ∧ (∃ T, bufs w' !! nb = Some T ∧ Z.of_nat (length T) = L * F
            ∧ ∀ di dj c f, 0 ≤ di < kR → 0 ≤ dj < kC → 0 ≤ c < C → 0 ≤ f < n →
                buf_get T (((di * kC + dj) * C + c) * F + f)
                = get4 w (tensor Wo) di dj c f)).
  change (for_each (seqZ 0 F) _) with
    (for_each (seqZ 0 F) (λ n,
       via_temp (S nt) W (S (S nt)) nt (λ Wt, pick Wt [None; None; None; Some n])
         (λ wt prt, ops_assign (pick wt [None; Some n]) prt))).
  apply wp_bind, (wp_for_seqZ E I); [done|..].
  - (* the invariant holds at the start *)
    assert (Hr1 : tens w1 !! nt = Some wrobj) by (rewrite Ht1; apply lookup_snoc).
    assert (Hp2 : tens w2 !! S nt = Some pobj).
    { rewrite Ht2, <- Hnt1. apply lookup_snoc. }
    assert (HT1 : bufs w1 !! nb = Some (zeros (foldr Z.mul 1 [L; F]))).
    { rewrite Hb1. apply lookup_snoc. }
    assert (HP2 : bufs w2 !! S nb = Some (zeros (foldr Z.mul 1 [kR; kC; C]))).
    { rewrite Hb2, <- Hnb1. apply lookup_snoc. }
    unfold I. split_and!.
    + rewrite Ht3, Ht2, Ht1. by do 3 apply lookup_snoc_Some.
    + rewrite Ht3, Ht2. by do 2 apply lookup_snoc_Some.
    + rewrite Ht3. by apply lookup_snoc_Some.
    + eexists. split; [rewrite Ht3, <- Hnt2; apply lookup_snoc|]. done.
    + rewrite Hb3, length_snoc. lia.
    + apply buf_of_eq. rewrite Hb3, Hb2, Hb1.
      rewrite <- !app_assoc. by rewrite lookup_app_l.
    + eexists. split; [rewrite Hb3; by apply lookup_snoc_Some|].
      rewrite zeros_length. simpl. unfold L. nia.
    + eexists. split; [rewrite Hb3, Hb2; by do 2 apply lookup_snoc_Some|].
      split; [rewrite zeros_length; simpl; nia|]. intros; lia.
  - (* one filter *)
    clear dependent w1 w2 w3. intros n w1 Hn (HWo1 & Hr1 & Hp1 & (qo & Hq1 & Hqs & Hqst & Hqo)
      & Hlen1 & HbW1 & (P & HP1 & HPl) & (T & HT1 & HTl & HTc)).
    eapply (wp_via_temp E _ _ _ _ _ _ _ w1 pobj Wo qo wrobj); [done..|lia|lia| | |].
    { cbn. lia. }
    { cbn. lia. }
    intros w2 Ht2 Hl2 Hb2. cbn [tensor pobj wrobj plain_tensor data ndarray_of] in *.
    rewrite Hqs, Hqst, Hqo in *.
    set (P' := write_upd _ _ _ _) in Hb2.
    assert (HP' : ∀ di dj c, 0 ≤ di < kR → 0 ≤ dj < kC → 0 ≤ c < C →
              buf_get P' ((di * kC + dj) * C + c) = get4 w (tensor Wo) di dj c n).
    { intros di dj c Hdi Hdj Hc. unfold P'.
      rewrite (write_plain3 _ (λ idx, nd_get w1 (pick (tensor Wo) [None; None; None; Some n]) idx)
                 _ kR kC C); [| |unfold buf_of; rewrite HP1; simpl; unfold L in HPl; lia|done..].
      - rewrite get_filter by lia. unfold get4, nd_get. by rewrite HbW1.
      - intros. apply index_plain3. }
    assert (HP'l : Z.of_nat (length P') = L).
    { unfold P'. rewrite write_upd_length. unfold buf_of. by rewrite HP1. }
    apply wp_assign_pure.
    { cbn. lia. }
    { cbn. rewrite Hb2, length_insert. lia. }
    intros w3 Ht3 Hl3 Hb3.
    cbn [data pick ndarray_of] in Hb3.
    assert (Hsrc : buf_of w2 (S nb) = P').
    { unfold buf_of. rewrite Hb2, list_lookup_insert_eq by lia. done. }
    assert (Hdst : buf_of w2 nb = T).
    { unfold buf_of. rewrite Hb2, list_lookup_insert_ne by lia. by rewrite HT1. }
    rewrite Hsrc, Hdst in Hb3. rewrite (shape_col nb L F n) in Hb3 by lia.
    set (T' := write_upd _ _ _ _) in Hb3.
    destruct (write_col (index (pick (ndarray_of nb [L; F]) [None; Some n]))
                (λ idx, buf_get P' (index {| data := S nb; shape := [L];
                                             stride := [1]; offset := 0 |} idx))
                T L F n) as [Hc1 Hc2]; [intros; by apply index_col; lia|done|lia|].
    fold T' in Hc1, Hc2.
    unfold I. split_and!.
    + rewrite Ht3, Ht2, list_lookup_insert_ne by lia. done.
    + rewrite Ht3, Ht2, list_lookup_insert_ne by lia. done.
    + rewrite Ht3, Ht2, list_lookup_insert_ne by lia. done.
    + eexists. split; [rewrite Ht3, Ht2; apply list_lookup_insert_eq; by eapply lookup_lt_Some|].
      done.
    + by rewrite Hb3, Hb2, !length_insert.
    + rewrite <- HbW1. apply buf_of_eq.
      rewrite Hb3, Hb2, !list_lookup_insert_ne by lia. done.
    + exists P'. split; [|done].
      rewrite Hb3, list_lookup_insert_ne by lia. rewrite Hb2.
      apply list_lookup_insert_eq. lia.
    + exists T'. split; [|split].
      * rewrite Hb3. apply list_lookup_insert_eq. rewrite Hb2, length_insert. lia.
      * unfold T'. by rewrite write_upd_length.
      * intros di dj c f Hdi Hdj Hc Hf.
        destruct (decide (f = n)) as [->|Hfn].
        -- rewrite Hc1 by (pose proof (rm3_bound kR kC C di dj c); unfold L; lia).
           unfold index. simpl. rewrite <- HP' by done. f_equal. lia.
        -- rewrite Hc2 by lia. apply HTc; lia.
  - (* the matrix is returned *)
    clear dependent w1 w2 w3. intros w1 (HWo1 & Hr1 & Hp1 & _ & Hlen1 & HbW1 & _
      & (T & HT1 & HTl & HTc)).
    apply wp_bind, wp_modify, wp_ret. split; [done|]. split; [done|].
    exists T. split; [done|]. split; [unfold L in HTl; lia|done].
Qed.

(** ** The patch matrix *)

Lemma div_mod_rm oC a b : 0 ≤ b < oC → (a * oC + b) / oC = a ∧ (a * oC + b) `mod` oC = b.
Proof.
  intros Hb. split.
  - symmetry. apply (Z.div_unique_pos _ _ _ b); lia.
  - symmetry. apply (Z.mod_unique_pos _ _ a); lia.
Qed.

Lemma im2col_spec E this x w xo H Wd C F kR kC oR oC oF s0 s1 :
  tens w !! x = Some xo → shape (tensor xo) = [H; Wd; C] →
  kernelShape this = (F, kR, kC) → outputShape this = Some (oR, oC, oF) →
  subsample this = (s0, s1) →
  0 < s0 → 0 < s1 →
  rounds (H - kR) s0 = oR → rounds (Wd - kC) s1 = oC →
  0 ≤ kR → 0 ≤ kC → 0 ≤ C →
  (data (tensor xo) < length (bufs w))%nat →
  wp E (_im2col this x)
    (λ r w', r = length (tens w)
       ∧ tens w' !! r
         = Some (plain_tensor (length (bufs w)) [oR * oC; kR * kC * C] false)
       ∧ ∃ T, bufs w' !! length (bufs w) = Some T
              ∧ Z.of_nat (length T) = oR * oC * (kR * kC * C)
              ∧ ∀ a b di dj c, 0 ≤ a < oR → 0 ≤ b < oC →
                  0 ≤ di < kR → 0 ≤ dj < kC → 0 ≤ c < C →
                  buf_get T ((a * oC + b) * (kR * kC * C) + ((di * kC + dj) * C + c))
                  = get3 w (tensor xo) (a * s0 + di) (b * s1 + dj) c) w.
Proof.
  intros Hxo Hsh Hk Hos Hss Hs0 Hs1 HoR HoC HkR HkC HCn Hxd.
  assert (Hxlt : (x < length (tens w))%nat) by by eapply lookup_lt_Some.
  pose proof (rounds_spec (H - kR) s0 Hs0) as (HoR0 & _ & _).
  pose proof (rounds_spec (Wd - kC) s1 Hs1) as (HoC0 & _ & _).
  rewrite HoR in HoR0. rewrite HoC in HoC0.
  unfold _im2col.
  apply wp_bind, (wp_get_tensor_pure _ _ xo); [done|]. rewrite Hsh, Hk.
  apply wp_bind, wp_defined; [|by rewrite Hos]. rewrite Hos. intros ? [= <-].
  rewrite Hss. cbn [fst snd].
  set (L := kR * kC * C).
  assert (HL : 0 ≤ L) by (unfold L; nia).
  set (nb := length (bufs w)). set (nt := length (tens w)).
  apply wp_bind, wp_new_Tensor_pure; [simpl; nia|]. intros w1 Ht1 Hl1 Hb1.
  apply wp_bind, wp_new_Tensor_pure; [simpl; nia|]. intros w2 Ht2 Hl2 Hb2.
  apply wp_bind, wp_new_Tensor_pure; [simpl; nia|]. intros w3 Ht3 Hl3 Hb3.
  assert (Hnt1 : length (tens w1) = S nt) by (rewrite Ht1; apply length_snoc).
  assert (Hnt2 : length (tens w2) = S (S nt)) by (rewrite Ht2, length_snoc; lia).
  assert (Hnb1 : length (bufs w1) = S nb) by (rewrite Hb1; apply length_snoc).
  assert (Hnb2 : length (bufs w2) = S (S nb)) by (rewrite Hb2, length_snoc; lia).
  rewrite Hnt1, Hnt2. rewrite Hnb1 in Ht2. rewrite Hnb2 in Ht3.
  fold nb in Ht1.
  set (imobj := plain_tensor nb [oR * oC; L] false).
  set (pobj := plain_tensor (S nb) [kR; kC; C] false).
  set (J := λ (m n : Z) (w' : World),
    n = m
    ∧ tens w' !! x = Some xo
    ∧ tens w' !! nt = Some imobj
    ∧ tens w' !! S nt = Some pobj
    ∧ (∃ qo, tens w' !! S (S nt) = Some qo ∧ shape (tensor qo) = [L]
             ∧ stride (tensor qo) = [1] ∧ offset (tensor qo) = 0)
    ∧ length (bufs w') = S (S (S nb))
    ∧ buf_of w' (data (tensor xo)) = buf_of w (data (tensor xo))
    ∧ (∃ P, bufs w' !! S nb = Some P ∧ Z.of_nat (length P) = L)
    ∧ (∃ T, bufs w' !! nb = Some T ∧ Z.of_nat (length T) = oR * oC * L
            ∧ ∀ m' di dj c, 0 ≤ m' < m → 0 ≤ di < kR → 0 ≤ dj < kC → 0 ≤ c < C →
                buf_get T (m' * L + ((di * kC + dj) * C + c))
                = get3 w (tensor xo) (m' / oC * s0 + di) (m' `mod` oC * s1 + dj) c)).
  apply wp_bind.
  apply (wp_for_step_rounds E (λ a n w', J (a * oC) n w')); [done|..].
  - (* the invariant holds at the start *)
    assert (Hr1 : tens w1 !! nt = Some imobj) by (rewrite Ht1; apply lookup_snoc).
    assert (Hp2 : tens w2 !! S nt = Some pobj).
    { rewrite Ht2, <- Hnt1. apply lookup_snoc. }
    assert (HT1 : bufs w1 !! nb = Some (zeros (foldr Z.mul 1 [oR * oC; L]))).
    { rewrite Hb1. apply lookup_snoc. }
    assert (HP2 : bufs w2 !! S nb = Some (zeros (foldr Z.mul 1 [kR; kC; C]))).
    { rewrite Hb2, <- Hnb1. apply lookup_snoc. }
    unfold J. split_and!.
    + done.
    + rewrite Ht3, Ht2, Ht1. by do 3 apply lookup_snoc_Some.
    + rewrite Ht3, Ht2. by do 2 apply lookup_snoc_Some.
    + rewrite Ht3. by apply lookup_snoc_Some.
    + eexists. split; [rewrite Ht3, <- Hnt2; apply lookup_snoc|]. done.
    + rewrite Hb3, length_snoc. lia.
    + apply buf_of_eq. rewrite Hb3, Hb2, Hb1.
      rewrite <- !app_assoc. by rewrite lookup_app_l.
    + eexists. split; [rewrite Hb3; by apply lookup_snoc_Some|].
      rewrite zeros_length. simpl. unfold L. nia.
    + eexists. split; [rewrite Hb3, Hb2; by do 2 apply lookup_snoc_Some|].
      split; [rewrite zeros_length; simpl; nia|]. intros; lia.
  - (* one row of window positions *)
    clear dependent w1 w2 w3. intros a n w1 Ha HJ. rewrite HoR in Ha.
    apply (wp_for_step_rounds E (λ b n w', J (a * oC + b) n w')); [done|..].
    { by rewrite Z.add_0_r. }
    2:{ intros n' w' HJ'. rewrite HoC in HJ'.
        by replace ((a + 1) * oC) with (a * oC + oC) by lia. }
    clear dependent w1 n. intros b n w1 Hb. rewrite HoC in Hb.
    intros (-> & Hx1 & Hr1 & Hp1 & (qo & Hq1 & Hqs & Hqst & Hqo)
      & Hlen1 & HbX1 & (P & HP1 & HPl) & (T & HT1 & HTl & HTc)).
    change (wp E (via_temp (S nt) x (S (S nt)) nt
                    (λ xt, lo (hi xt [a * s0 + kR; b * s1 + kC; C]) [a * s0; b * s1; 0])
                    (λ imt prt, _ ← ops_assign (pick imt [Some (a * oC + b); None]) prt;
                                mret (a * oC + b + 1)))
              (λ n' w', J (a * oC + (b + 1)) n' w') w1).
    eapply (wp_via_temp E _ _ _ _ _ _ _ w1 pobj xo qo imobj); [done..|lia|lia| | |].
    { cbn. lia. }
    { cbn. lia. }
    intros w2 Ht2 Hl2 Hb2. cbn [tensor pobj imobj plain_tensor data ndarray_of] in *.
    rewrite Hqs, Hqst, Hqo in *.
    set (P' := write_upd _ _ _ _) in Hb2.
    assert (HP' : ∀ di dj c, 0 ≤ di < kR → 0 ≤ dj < kC → 0 ≤ c < C →
              buf_get P' ((di * kC + dj) * C + c)
              = get3 w (tensor xo) (a * s0 + di) (b * s1 + dj) c).
    { intros di dj c Hdi Hdj Hc. unfold P'.
      rewrite (write_plain3 _
                 (λ idx, nd_get w1 (lo (hi (tensor xo) [a * s0 + kR; b * s1 + kC; C])
                                       [a * s0; b * s1; 0]) idx)
                 _ kR kC C); [| |unfold buf_of; rewrite HP1; simpl; unfold L in HPl; lia|done..].
      - unfold get3, nd_get. rewrite index_window by nia. cbn [data lo hi].
        by rewrite HbX1.
      - intros. apply index_plain3. }
    assert (HP'l : Z.of_nat (length P') = L).
    { unfold P'. rewrite write_upd_length. unfold buf_of. by rewrite HP1. }
    set (n := a * oC + b).
    assert (Hn : 0 ≤ n < oR * oC) by (unfold n; by apply rm2_bound).
    apply wp_bind, wp_assign_pure.
    { cbn. lia. }
    { cbn. rewrite Hb2, length_insert. lia. }
    intros w3 Ht3 Hl3 Hb3. apply wp_ret.
    cbn [data pick ndarray_of] in Hb3.
    assert (Hsrc : buf_of w2 (S nb) = P').
    { unfold buf_of. rewrite Hb2, list_lookup_insert_eq by lia. done. }
    assert (Hdst : buf_of w2 nb = T).
    { unfold buf_of. rewrite Hb2, list_lookup_insert_ne by lia. by rewrite HT1. }
    rewrite Hsrc, Hdst in Hb3. rewrite (shape_row nb (oR * oC) L n) in Hb3 by lia.
    set (T' := write_upd _ _ _ _) in Hb3.
    destruct (write_row (index (pick (ndarray_of nb [oR * oC; L]) [Some n; None]))
                (λ idx, buf_get P' (index {| data := S nb; shape := [L];
                                             stride := [1]; offset := 0 |} idx))
                T (oR * oC) L n) as [Hc1 Hc2];
      [intros; by apply index_row; lia|lia|lia|].
    fold T' in Hc1, Hc2.
    unfold J. split_and!.
    + unfold n. lia.
    + rewrite Ht3, Ht2, list_lookup_insert_ne by lia. done.
    + rewrite Ht3, Ht2, list_lookup_insert_ne by lia. done.
    + rewrite Ht3, Ht2, list_lookup_insert_ne by lia. done.
    + eexists. split; [rewrite Ht3, Ht2; apply list_lookup_insert_eq; by eapply lookup_lt_Some|].
      done.
    + by rewrite Hb3, Hb2, !length_insert.
    + rewrite <- HbX1. apply buf_of_eq.
      rewrite Hb3, Hb2, !list_lookup_insert_ne by lia. done.
    + exists P'. split; [|done].
      rewrite Hb3, list_lookup_insert_ne by lia. rewrite Hb2.
      apply list_lookup_insert_eq. lia.
    + exists T'. split; [|split].
      * rewrite Hb3. apply list_lookup_insert_eq. rewrite Hb2, length_insert. lia.
      * unfold T'. by rewrite write_upd_length.
      * intros m' di dj c Hm' Hdi Hdj Hc.
        assert (Ht : 0 ≤ (di * kC + dj) * C + c < L).
        { pose proof (rm3_bound kR kC C di dj c). unfold L. lia. }
        destruct (decide (m' = n)) as [->|Hmn].
        -- rewrite Hc1 by done.
           destruct (div_mod_rm oC a b ltac:(lia)) as [Hdiv Hmod].
           unfold n. rewrite Hdiv, Hmod.
           unfold index. simpl. rewrite <- HP' by done. f_equal. lia.
        -- rewrite Hc2 by done. apply HTc; try done. unfold n in *. lia.
  - (* the matrix is returned *)
    clear dependent w1 w2 w3. intros n w1 HJ. rewrite HoR in HJ.
    destruct HJ as (-> & Hx1 & Hr1 & Hp1 & _ & Hlen1 & HbX1 & _ & (T & HT1 & HTl & HTc)).
    apply wp_ret. split; [done|]. split; [done|].
    exists T. split; [done|]. split; [done|].
    intros a b di dj c Ha Hb Hdi Hdj Hc.
    rewrite HTc; [|by apply rm2_bound|done..].
    destruct (div_mod_rm oC a b ltac:(lia)) as [Hdiv Hmod].
    by rewrite Hdiv, Hmod.
Qed.

(** ** The two matrix products *)










(** ** The number of window positions *)

Lemma rounds_valid H kR s0 :
  0 < s0 → kR ≤ H → rounds (H - kR) s0 = (H - kR + s0) / s0.
Proof.
  intros Hs Hk. unfold rounds. rewrite bool_decide_eq_false_2 by lia.
  replace (H - kR + s0) with (H - kR + 1 * s0) by lia.
  by rewrite Z.div_add by lia.
Qed.

Lemma rounds_same H kR s0 :
  0 < s0 → 0 < H → 0 < kR →
  rounds (H + Z.max 0 ((ceil_div H s0 - 1) * s0 + kR - H) - kR) s0 = ceil_div H s0.
Proof.
  intros Hs HH Hk. pose proof (ceil_div_bounds H s0 Hs) as Hc.
  assert (1 ≤ ceil_div H s0) by nia.
  unfold rounds. rewrite bool_decide_eq_false_2 by nia.
  assert (E : (H + Z.max 0 ((ceil_div H s0 - 1) * s0 + kR - H) - kR) / s0
              = ceil_div H s0 - 1); [|lia].
  symmetry.
  apply (Z.div_unique_pos _ _ _
    (H + Z.max 0 ((ceil_div H s0 - 1) * s0 + kR - H) - kR - (ceil_div H s0 - 1) * s0));
    nia.
Qed.

(** ** The phases of [call] *)

Lemma wp_conj {A} E (c : M A) (Q1 Q2 : A → World → Prop) w :
  wp E c Q1 w → wp True c Q2 w → wp E c (λ a w', Q1 a w' ∧ Q2 a w') w.
Proof. unfold wp. destruct (c w) as [[a w']| | |]; tauto. Qed.





Lemma out_size_valid n k s : out_size "valid" n k s = (n - k + s) / s.
Proof. done. Qed.

Lemma out_size_same n k s : out_size "same" n k s = ceil_div n s.
Proof. done. Qed.

Lemma pad_total_valid n k s : pad_total "valid" n k s = 0.
Proof. done. Qed.

Lemma pad_total_same n k s :
  pad_total "same" n k s = Z.max 0 ((ceil_div n s - 1) * s + k - n).
Proof. done. Qed.

Lemma calcOutputShape_run this x w xo H Wd F kR kC s0 s1 :
  tens w !! x = Some xo →
  shape (tensor xo) !! 0%nat = Some H →
  shape (tensor xo) !! 1%nat = Some Wd →
  kernelShape this = (F, kR, kC) →
  subsample this = (s0, s1) →
  0 < s0 → 0 < s1 →
  borderMode this = "valid" ∨ borderMode this = "same" →
  let padR := pad_total (borderMode this) H kR s0 in
  let padC := pad_total (borderMode this) Wd kC s1 in
  _calcOutputShape this x w
  = Ok (set_geometry this
          (out_size (borderMode this) H kR s0, out_size (borderMode this) Wd kC s1, F)
          (padR / 2, padR - padR / 2, padC / 2, padC - padC / 2), w).
Proof.
  intros Hx H0 H1 Hk Hs Hs0 Hs1 Hmode.
  unfold _calcOutputShape, get_tensor, get_obj, shape_at, floor_div, mbind, M_bind, mret, M_ret.
  rewrite Hx, H0, H1, Hk, Hs.
  rewrite !(bool_decide_eq_false_2 (_ = 0)) by lia.
  destruct Hmode as [Hm|Hm]; rewrite Hm.
  - reflexivity.
  - rewrite !pad_total_same, !out_size_same. cbn [bool_decide decide_rel].
    rewrite bool_decide_eq_true_2 by done. cbn zeta.
    by rewrite !ceil_div_floor by lia.
Qed.

Lemma geometry_mode (mode : string) n k s :
  0 < s → 0 < n → 0 < k →
  (mode = "valid" ∧ k ≤ n) ∨ mode = "same" →
  let o := out_size mode n k s in
  let p := pad_total mode n k s in
  0 ≤ p ∧ 0 < o ∧ rounds (n + p - k) s = o ∧ (o - 1) * s + k ≤ n + p.
Proof.
  intros Hs Hn Hk [[-> Hkn]| ->].
  - rewrite out_size_valid, pad_total_valid. cbn zeta.
    rewrite Z.add_0_r, rounds_valid by done.
    pose proof (Z.mul_div_le (n - k + s) s Hs).
    assert (1 ≤ (n - k + s) / s).
    { apply Z.div_le_lower_bound; lia. }
    split_and!; try lia.
  - rewrite out_size_same, pad_total_same. cbn zeta.
    pose proof (ceil_div_bounds n s Hs).
    rewrite rounds_same by done.
    split_and!; try lia; nia.
Qed.









(** ** What [call] returns *)



(** * Further properties of the layer's methods *)

(** ** The weight matrix and the patch matrix *)



(** X2.  [_im2col] returns a new tensor when the recorded output shape
    counts the window positions of its two loops: a row-major matrix of
    shape [outRows * outCols, nbRow * nbCol * C] over a new buffer, whose
    row [a * outCols + b] is the window of the input that starts at
    [(a * s0, b * s1)], flattened with the row offset slowest and the
    channel fastest.  The input is read through its view, whatever its
    strides and offset; no buffer that existed is written and no other
    wrapper changes. *)
Theorem im2col_layout (this : Layer) (x : tref) (w : World) (xo : TensorObj)
    (H Wd C F kR kC oR oC oF s0 s1 : Z) :
  tens w !! x = Some xo →
  shape (tensor xo) = [H; Wd; C] →
  kernelShape this = (F, kR, kC) →
  outputShape this = Some (oR, oC, oF) →
  subsample this = (s0, s1) →
  0 < s0 → 0 < s1 →
  rounds (H - kR) s0 = oR → rounds (Wd - kC) s1 = oC →
  0 ≤ kR → 0 ≤ kC → 0 ≤ C →
  (data (tensor xo) < length (bufs w))%nat →
  ∃ w' o,
    _im2col this x w = Ok (length (tens w), w')
    ∧ tens w' !! length (tens w) = Some o
    ∧ tensor o = ndarray_of (length (bufs w)) [oR * oC; kR * kC * C]
    ∧ (∀ a b di dj c, 0 ≤ a < oR → 0 ≤ b < oC →
         0 ≤ di < kR → 0 ≤ dj < kC → 0 ≤ c < C →
         nd_get w' (tensor o) [a * oC + b; (di * kC + dj) * C + c]
         = get3 w (tensor xo) (a * s0 + di) (b * s1 + dj) c)
    ∧ (∀ d, (d < length (bufs w))%nat → bufs w' !! d = bufs w !! d)
    ∧ (∀ t, (t < length (tens w))%nat → t ≠ x → tens w' !! t = tens w !! t).
Proof.
  intros Hx Hsh Hk Hos Hs Hs0 Hs1 HrR HrC HkR HkC HC Hd.
  destruct (wp_total _ _ _
    (wp_conj False _ _ _ _
       (im2col_spec False this x w xo H Wd C F kR kC oR oC oF s0 s1
          Hx Hsh Hk Hos Hs Hs0 Hs1 HrR HrC HkR HkC HC Hd)
       (im2col_frame this x w)))
    as (r & w' & Hrun & (-> & Hr & T & HT & HTl & HTv) & _ & He).
  exists w', (plain_tensor (length (bufs w)) [oR * oC; kR * kC * C] false).
  split; [done|]. split; [done|]. split; [done|]. split; [|split].
  - intros a b di dj c Ha Hb Hdi Hdj Hc. rewrite <- HTv by done.
    unfold nd_get. cbn [tensor plain_tensor]. rewrite index_plain2.
    cbn [data ndarray_of]. unfold buf_of. by rewrite HT.
  - apply (ext_bufs _ _ _ _ He).
  - apply (ext_tens _ _ _ _ He).
Qed.

Lemma im2col_layout_witness :
  ∃ w' o,
    _im2col example_layer_same 0%nat
      {| bufs := [Num <$> seqZ 0 49]; tens := [plain_tensor 0 [7; 7; 1] false];
         log := [] |} = Ok (1%nat, w')
    ∧ tens w' !! 1%nat = Some o
    ∧ shape (tensor o) = [25; 9]
    ∧ nd_get w' (tensor o) [6; 4] = Num 16.
Proof.
  destruct (im2col_layout example_layer_same 0%nat
              {| bufs := [Num <$> seqZ 0 49]; tens := [plain_tensor 0 [7; 7; 1] false];
                 log := [] |}
              (plain_tensor 0 [7; 7; 1] false) 7 7 1 1 3 3 5 5 1 1 1
              eq_refl eq_refl eq_refl eq_refl eq_refl ltac:(lia) ltac:(lia)
              eq_refl eq_refl ltac:(lia) ltac:(lia) ltac:(lia) ltac:(simpl; lia))
    as (w' & o & Hrun & Ho & Hto & Hv & _).
  exists w', o. split; [exact Hrun|]. split; [exact Ho|]. split.
  - rewrite Hto. reflexivity.
  - exact (Hv 1 1 1 1 0 ltac:(lia) ltac:(lia) ltac:(lia) ltac:(lia) ltac:(lia)).
Defined.

(** ** A layer that is not ready *)

Lemma wp_skip {A B} (c : M A) (k : A → M B) (Q : B → World → Prop) w :
  (∀ a w', wp True (k a) Q w') → wp True (c ≫= k) Q w.
Proof.
  intros Hk. apply wp_bind. unfold wp at 1. destruct (c w) as [[a w']| | |]; auto.
Qed.

Lemma wp_never {A} (c : M A) w :
  wp True c (λ _ _, False) w → ∀ r, c w ≠ Ok r.
Proof. unfold wp. intros H [a w'] Hc. by rewrite Hc in H. Qed.

Lemma call_to_product this x (P : Layer → Prop) (Q : tref * Layer → World → Prop) w :
  (∀ os pad, P (set_geometry this os pad)) →
  (∀ this' imColsMat w',
     P this' →
     wp True
       (wRowsMat ← defined (_wRowsMat this');
        let nbFilter := (kernelShape this').1.1 in
        '(outputRows, outputCols, outputChannels) ← defined (outputShape this');
        let nbPatches := outputRows * outputCols in
        matMul ← new_Tensor [nbPatches; nbFilter];
        _ ← bias_fill this' matMul nbFilter;
        xo ← get_obj x;
        _ ← product this' (_useWeblas xo) imColsMat wRowsMat matMul;
        output ← new_Tensor [outputRows; outputCols; outputChannels];
        outputChannelRaveled ← new_Tensor [outputRows * outputCols];
        outputChannel ← new_Tensor [outputRows; outputCols];
        _ ← assemble outputChannelRaveled matMul outputChannel output nbFilter;
        ot ← get_tensor output;
        _ ← set_tensor x ot;
        act ← defined (activation this');
        _ ← apply_activation act x;
        _ ← (if bool_decide (dimOrdering this' = "th") then
               xt ← get_tensor x;
               set_tensor x (transpose xt [2; 0; 1]%nat)
             else mret tt);
        mret (x, this')) Q w') →
  wp True (call this x) Q w.
Proof.
  intros HP Hrest. unfold call.
  apply wp_skip. intros _ w0.
  apply wp_bind. eapply wp_mono; [|apply calcOutputShape_frame].
  intros this' w1 (-> & _ & os & pad & -> & _).
  apply wp_skip. intros _ w2. apply wp_bind.
  unfold wp at 1. destruct (_im2col _ x w2) as [[im w3]| | |]; [|done..].
  apply (Hrest _ im w3). apply HP.
Qed.

(** X3.  A layer whose weights were never assigned cannot be called: with
    no cached weight matrix, or with bias switched on, at least one filter
    and no bias tensor, no call returns normally, whatever the input and
    the store. *)
Theorem call_without_weights (this : Layer) (x : tref) (w : World) :
  _wRowsMat this = None
  ∨ (bias this = true ∧ weights_b this = None ∧ 0 < (kernelShape this).1.1) →
  ∀ r, call this x w ≠ Ok r.
Proof.
  intros Hnot. apply wp_never.
  apply (call_to_product this x
           (λ l, _wRowsMat l = _wRowsMat this ∧ bias l = bias this
                 ∧ weights_b l = weights_b this ∧ kernelShape l = kernelShape this)).
  { done. }
  intros this' im w' (Hwr & Hbias & Hwb & Hk).
  destruct Hnot as [Hnone|(Hb & Hnone & HF)].
  - rewrite Hwr, Hnone. apply wp_bind. done.
  - apply wp_skip. intros wr w1. apply wp_skip. intros [[oR oC] oCh] w2.
    apply wp_skip. intros mm w3. apply wp_bind.
    unfold bias_fill. rewrite Hbias, Hb, Hk, Hwb, Hnone.
    rewrite seqZ_cons by lia. cbn [for_each].
    apply wp_bind, wp_skip. intros mt w4. apply wp_bind. done.
Qed.

Lemma call_without_weights_witness :
  call example_layer 0%nat (example_world false) = Throw "TypeError"
  ∧ ∀ r, call example_layer 0%nat (example_world false) ≠ Ok r.
Proof.
  split; [vm_compute; reflexivity|].
  apply (call_without_weights example_layer 0%nat (example_world false)).
  left. reflexivity.
Defined.

(** X4.  The constructor does not check the activation name.  With a name
    that the table of activations does not hold, construction succeeds
    whenever the border mode and the axis order are valid, and the failure
    shows only when the layer is used: no run of the layer returns
    normally, whatever the weights and the input. *)
Theorem unknown_activation (activations : string → option Activation) (attrs : Attrs) :
  activations (default "linear" (attr_activation attrs)) = None →
  (borderMode_ok attrs → dimOrdering_ok attrs →
     ∃ this, constructor activations attrs = Ok this ∧ activation this = None)
  ∧ ∀ ws x w r, run_layer activations attrs ws x w ≠ Ok r.
Proof.
  intros Hact.
  assert (Hc : ∀ this, constructor activations attrs = Ok this → activation this = None).
  { unfold constructor. intros this. repeat case_bool_decide; [|done..].
    intros [= <-]. exact Hact. }
  split.
  - intros Hb Hd. unfold constructor in *.
    rewrite !bool_decide_eq_true_2 in * by done. eexists. split; [reflexivity|].
    by apply Hc.
  - intros ws x w r. unfold run_layer.
    destruct (constructor activations attrs) as [this| | |] eqn:Hcon; [|done..].
    destruct (setWeights this ws w) as [[this1 w1]| | |] eqn:Hset; [|done..].
    assert (Hact1 : activation this1 = None).
    { destruct (wp_inv _ _ _ _ _ _ (setWeights_frame this ws w) Hset)
        as (_ & _ & _ & -> & _). cbn. by apply Hc. }
    revert r. apply wp_never.
    apply (call_to_product this1 x (λ l, activation l = None)); [done|].
    intros this' im w' Hnone.
    apply wp_skip. intros wr w2. apply wp_skip. intros [[oR oC] oCh] w3.
    do 10 (apply wp_skip; intros ? ?).
    rewrite Hnone. apply wp_bind. done.
Qed.

Lemma unknown_activation_witness :
  run_layer (λ _, None) no_attrs [1; 2]%nat 0%nat (example_world false)
  = Throw "TypeError"
  ∧ ∀ r, run_layer (λ _, None) no_attrs [1; 2]%nat 0%nat (example_world false) ≠ Ok r.
Proof.
  split; [vm_compute; reflexivity|].
  apply (proj2 (unknown_activation (λ _, None) no_attrs eq_refl)).
Defined.

(** ** What a call leaves as it was *)

(** X5.  A call that returns has written no buffer that existed before it
    and has rebound no wrapper but its input: the data of the input, the
    weights, the bias and the cached weight matrix are all as they were.
    The input wrapper keeps its backend flag.  Of the layer the call has
    changed the recorded output shape and padding and nothing else. *)
Theorem call_preserves_state (this : Layer) (x : tref) (w : World)
    (r : tref) (l' : Layer) (w' : World) :
  call this x w = Ok (r, l', w') →
  (∀ d, (d < length (bufs w))%nat → bufs w' !! d = bufs w !! d)
  ∧ (∀ t, (t < length (tens w))%nat → t ≠ x → tens w' !! t = tens w !! t)
  ∧ (∃ xo xo', tens w !! x = Some xo ∧ tens w' !! x = Some xo'
               ∧ _useWeblas xo' = _useWeblas xo)
  ∧ ∃ os pad, l' = set_geometry this os pad.
Proof.
  intros Hrun.
  destruct (wp_inv _ _ _ _ _ _ (call_frame this x w) Hrun)
    as (xo & os & pad & d & Hxo & [= -> ->] & _ & He & _ & Hx').
  split; [apply (ext_bufs _ _ _ _ He)|]. split; [apply (ext_tens _ _ _ _ He)|].
  split; [by eexists xo, _|]. by exists os, pad.
Qed.

Lemma call_preserves_state_witness :
  ∃ l w l' w',
    example_loaded false = Some (l, w)
    ∧ call l 0%nat w = Ok (0%nat, l', w')
    ∧ bufs w' !! 0%nat = bufs w !! 0%nat
    ∧ tens w' !! 1%nat = tens w !! 1%nat.
Proof.
  let res := eval vm_compute in (example_loaded false) in
  lazymatch res with
  | Some (?l, ?w) =>
      let res2 := eval vm_compute in (call l 0%nat w) in
      lazymatch res2 with
      | Ok (?r, ?l', ?w') =>
          exists l, w, l', w';
          assert (Hrun : call l 0%nat w = Ok (r, l', w')) by (vm_compute; reflexivity);
          destruct (call_preserves_state l 0%nat w r l' w' Hrun) as (Hb & Ht & _);
          split; [vm_compute; reflexivity|];
          split; [exact Hrun|];
          split; [apply Hb; simpl; lia|apply Ht; [simpl; lia|lia]]
      end
  end.
Defined.

Lemma bind_ext_l {A B} (c1 c2 : M A) (k : A → M B) w :
  c1 w = c2 w → (c1 ≫= k) w = (c2 ≫= k) w.
Proof. unfold mbind, M_bind. by intros ->. Qed.

Lemma bind_ext_r {A B} (c : M A) (k1 k2 : A → M B) w :
  (∀ a w', k1 a w' = k2 a w') → (c ≫= k1) w = (c ≫= k2) w.
Proof.
  intros Hk. unfold mbind, M_bind. destruct (c w) as [[a w']| | |]; [|done..].
  apply Hk.
Qed.

(** X6.  A call does not read the output shape and the padding that an
    earlier call recorded in the layer: it computes both anew from its
    input.  The same layer can therefore be called on inputs of different
    sizes, each call behaving as on a layer that was never called. *)
Theorem call_ignores_recorded_geometry (this : Layer) (x : tref) (w : World)
    (os : Z * Z * Z) (pad : Z * Z * Z * Z) :
  call (set_geometry this os pad) x w = call this x w
  ∧ ∀ x1 w0 r l1, call this x1 w0 = Ok (r, l1, w) → call l1 x w = call this x w.
Proof.
  assert (Hc : ∀ os pad w1, _calcOutputShape (set_geometry this os pad) x w1
                            = _calcOutputShape this x w1).
  { clear. intros os pad w1.
    unfold _calcOutputShape, mbind, M_bind. cbn [set_geometry kernelShape subsample
      borderMode].
    destruct (get_tensor x w1) as [[xt w2]| | |]; [|done..].
    destruct (shape_at xt 0 w2) as [[ir w3]| | |]; [|done..].
    destruct (shape_at xt 1 w3) as [[ic w4]| | |]; [|done..].
    destruct (kernelShape this) as [[F kR] kC]. destruct (subsample this) as [s0 s1].
    match goal with
    | |- match ?c with _ => _ end = _ => destruct c as [[oR w5]| | |]; [|done..]
    end.
    match goal with
    | |- match ?c with _ => _ end = _ => destruct c as [[oC w6]| | |]; [|done..]
    end.
    reflexivity. }
  assert (Hcall : ∀ os pad, call (set_geometry this os pad) x w = call this x w).
  { clear os pad. intros os pad. unfold call.
    cbn [set_geometry dimOrdering].
    apply bind_ext_r. intros _ w1. apply bind_ext_l, Hc. }
  split; [apply Hcall|].
  intros x1 w0 r l1 Hrun.
  destruct (wp_inv _ _ _ _ _ _ (call_frame this x1 w0) Hrun)
    as (xo & os' & pad' & d & _ & [= _ ->] & _).
  apply Hcall.
Qed.

(** ** Weights in channels-first order *)

Lemma w2row_keeps_tens this w :
  wp True (_w2row this)
    (λ _ w', ∀ t, (t < length (tens w))%nat → tens w' !! t = tens w !! t) w.
Proof.
  unfold _w2row.
  apply wp_bind, wp_defined; [|done]. intros W _.
  apply wp_bind, wp_get_tensor; [|done]. intros Wo _.
  apply wp_bind, wp_shape_at; [|done]. intros C _.
  destruct (kernelShape this) as [[F kR] kC].
  apply wp_bind, wp_new_Tensor; [|done]. intros _.
  apply wp_bind, wp_new_Tensor; [|done]. intros _.
  apply wp_bind, wp_new_Tensor; [|done]. intros _.
  set (nt := length (tens w)).
  set (I := λ w' : World,
    length (tens w') = S (S (S nt))
    ∧ ∀ t, (t < nt)%nat → tens w' !! t = tens w !! t).
  apply wp_bind, (wp_for_each True I).
  - split.
    + cbn. rewrite !length_app. cbn. fold nt. lia.
    + intros t Ht. cbn. rewrite <- !app_assoc. by apply lookup_app_l.
  - intros n w1 _ [Hlen Hkeep].
    apply wp_bind, wp_get_tensor; [|done]. intros po _.
    apply wp_bind, wp_get_tensor; [|done]. intros Wo' _.
    apply wp_bind, wp_ops_assign.
    apply wp_bind, wp_get_tensor; [|done]. intros po' _.
    apply wp_bind, wp_replaceTensorData; [|done]. intros qo _.
    apply wp_bind, wp_get_tensor; [|done]. intros to _.
    apply wp_bind, wp_get_tensor; [|done]. intros qo' _.
    apply wp_ops_assign.
    unfold I. repeat first [rewrite assign_world_tens | progress cbn [tens set_tens]].
    split.
    + by rewrite length_insert.
    + intros t Ht. rewrite list_lookup_insert_ne by (cbn; rewrite !length_app; cbn; lia).
      by apply Hkeep.
  - intros w1 [_ Hkeep]. apply wp_bind, wp_modify, wp_ret. exact Hkeep.
Qed.

Lemma get4_transpose w v a b c d :
  length (stride v) = 4%nat →
  get4 w (transpose v [2; 3; 1; 0]%nat) a b c d = get4 w v d c a b.
Proof.
  intros Hs. unfold get4, nd_get, index, transpose. cbn [data stride offset].
  destruct (stride v) as [|s0 [|s1 [|s2 [|s3 [|? ?]]]]]; try done.
  cbn. do 2 f_equal. lia.
Qed.

Lemma setWeights_th_spec this ws w W Wo n0 n1 n2 n3 F kR kC :
  dimOrdering this = "th" →
  ws !! 0%nat = Some W →
  tens w !! W = Some Wo →
  shape (tensor Wo) = [n0; n1; n2; n3] →
  length (stride (tensor Wo)) = 4%nat →
  kernelShape this = (F, kR, kC) →
  (data (tensor Wo) < length (bufs w))%nat →
  0 ≤ F → 0 ≤ kR → 0 ≤ kC → 0 ≤ n1 →
  ∃ w' T,
    setWeights this ws w
      = Ok (set_wRowsMat (super_setWeights this ws) (Some (length (tens w))), w')
    ∧ (∀ t, (t < length (tens w))%nat →
         tens w' !! t = <[W := {| tensor := transpose (tensor Wo) [2; 3; 1; 0]%nat;
                                  _useWeblas := _useWeblas Wo |}]> (tens w) !! t)
    ∧ tens w' !! length (tens w)
      = Some (plain_tensor (length (bufs w)) [kR * kC * n1; F] false)
    ∧ bufs w' !! length (bufs w) = Some T
    ∧ (∀ di dj c f, 0 ≤ di < kR → 0 ≤ dj < kC → 0 ≤ c < n1 → 0 ≤ f < F →
         buf_get T (((di * kC + dj) * n1 + c) * F + f) = get4 w (tensor Wo) f c di dj)
    ∧ (∀ d, (d < length (bufs w))%nat → bufs w' !! d = bufs w !! d).
Proof.
  intros Hdim HW0 HWo Hsh Hst Hk Hd HF HkR HkC Hn1.
  assert (HWl : (W < length (tens w))%nat) by by eapply lookup_lt_Some.
  set (Wo' := {| tensor := transpose (tensor Wo) [2; 3; 1; 0]%nat;
                 _useWeblas := _useWeblas Wo |}).
  set (w0 := set_tens w (<[W := Wo']> (tens w))).
  set (this0 := super_setWeights this ws).
  assert (HWo0 : tens w0 !! W = Some Wo') by by apply list_lookup_insert_eq.
  assert (Hlen0 : length (tens w0) = length (tens w)) by apply length_insert.
  assert (Hrun : wp False (_w2row this0)
    (λ r w', ((r = length (tens w0)
       ∧ tens w' !! r = Some (plain_tensor (length (bufs w0)) [kR * kC * n1; F] false)
       ∧ ∃ T, bufs w' !! length (bufs w0) = Some T
              ∧ Z.of_nat (length T) = kR * kC * n1 * F
              ∧ ∀ di dj c f, 0 ≤ di < kR → 0 ≤ dj < kC → 0 ≤ c < n1 → 0 ≤ f < F →
                  buf_get T (((di * kC + dj) * n1 + c) * F + f)
                  = get4 w0 (tensor Wo') di dj c f)
      ∧ (ext W [EvW2row] w0 w' ∧ r = length (tens w0)
         ∧ ∃ o pl, tens w' !! r = Some o
                   ∧ shape (tensor o) = [pl; (kernelShape this0).1.1]
                   ∧ (data (tensor o) < length (bufs w'))%nat))
      ∧ ∀ t, (t < length (tens w0))%nat → tens w' !! t = tens w0 !! t) w0).
  { apply wp_conj; [apply wp_conj|].
    - apply (w2row_spec False this0 w0 W Wo' F kR kC n1); try done.
      cbn. by rewrite Hsh.
    - apply w2row_frame_at. by rewrite Hlen0.
    - apply w2row_keeps_tens. }
  apply wp_total in Hrun
    as (r & w' & Hrun & ((-> & Hr & T & HT & HTl & HTv) & He & _) & Hkeep).
  exists w', T. split; [|split; [|split; [|split; [|split]]]].
  - assert (Hset : wp False (setWeights this ws)
      (λ l w'', l = set_wRowsMat this0 (Some (length (tens w))) ∧ w'' = w') w).
    { unfold setWeights. rewrite Hdim, bool_decide_eq_true_2 by done.
      apply wp_bind, wp_bind, wp_defined; [|by rewrite HW0]. rewrite HW0.
      intros ? [= <-].
      apply wp_bind, (wp_get_tensor_pure _ _ Wo); [done|].
      apply wp_set_tensor; [|by rewrite HWo]. rewrite HWo. intros ? [= <-].
      fold Wo' w0 this0.
      apply wp_bind, (wp_eq _ _ _ _ _ _ Hrun). apply wp_ret. by rewrite Hlen0. }
    apply wp_total in Hset as (l & w'' & Hset & -> & ->). exact Hset.
  - intros t Ht. apply Hkeep. by rewrite Hlen0.
  - rewrite Hlen0 in Hr. exact Hr.
  - exact HT.
  - intros di dj c f Hdi Hdj Hc Hf. rewrite HTv by done.
    rewrite <- (get4_transpose w (tensor Wo)) by done. done.
  - apply (ext_bufs _ _ _ _ He).
Qed.

(** X7.  In channels-first order [setWeights] transposes the weight tensor
    in the caller's own wrapper: the first entry of the list, of shape
    [F, C, nbRow, nbCol], is left as the [(2, 3, 1, 0)] view of shape
    [nbRow, nbCol, C, F] over the same data.  The cached matrix is built
    from that view: its entry at row [(di * nbCol + dj) * C + c] and column
    [f] is the weight that the caller stored at [[f, c, di, dj]].  No
    buffer that existed is written and no other wrapper changes. *)
Theorem setWeights_channels_first (this : Layer) (ws : list tref) (w : World)
    (W : tref) (Wo : TensorObj) (F C kR kC : Z) :
  dimOrdering this = "th" →
  ws !! 0%nat = Some W →
  tens w !! W = Some Wo →
  shape (tensor Wo) = [F; C; kR; kC] →
  length (stride (tensor Wo)) = 4%nat →
  kernelShape this = (F, kR, kC) →
  (data (tensor Wo) < length (bufs w))%nat →
  0 ≤ F → 0 ≤ kR → 0 ≤ kC → 0 ≤ C →
  ∃ this1 w1 Wo1 o,
    setWeights this ws w = Ok (this1, w1)
    ∧ weights_W this1 = Some W
    ∧ tens w1 !! W = Some Wo1
    ∧ tensor Wo1 = transpose (tensor Wo) [2; 3; 1; 0]%nat
    ∧ shape (tensor Wo1) = [kR; kC; C; F]
    ∧ _wRowsMat this1 = Some (length (tens w))
    ∧ tens w1 !! length (tens w) = Some o
    ∧ tensor o = ndarray_of (length (bufs w)) [kR * kC * C; F]
    ∧ (∀ di dj c f, 0 ≤ di < kR → 0 ≤ dj < kC → 0 ≤ c < C → 0 ≤ f < F →
         nd_get w1 (tensor o) [(di * kC + dj) * C + c; f] = get4 w (tensor Wo) f c di dj)
    ∧ (∀ d, (d < length (bufs w))%nat → bufs w1 !! d = bufs w !! d)
    ∧ (∀ t, (t < length (tens w))%nat → t ≠ W → tens w1 !! t = tens w !! t).
Proof.
  intros Hdim HW0 HWo Hsh Hst Hk Hd HF HkR HkC HC.
  assert (HWl : (W < length (tens w))%nat) by by eapply lookup_lt_Some.
  destruct (setWeights_th_spec this ws w W Wo F C kR kC F kR kC
              Hdim HW0 HWo Hsh Hst Hk Hd HF HkR HkC HC)
    as (w1 & T & Hrun & Hold & Hnew & HT & HTv & Hb).
  eexists _, w1, _, _. split; [exact Hrun|].
  split; [done|]. split; [rewrite Hold by done; by apply list_lookup_insert_eq|].
  split; [done|]. split; [cbn; by rewrite Hsh|]. split; [done|].
  split; [exact Hnew|]. split; [done|]. split; [|split].
  - intros di dj c f Hdi Hdj Hc Hf. rewrite <- HTv by done.
    unfold nd_get. cbn [tensor plain_tensor]. rewrite index_plain2.
    cbn [data ndarray_of]. unfold buf_of. by rewrite HT.
  - exact Hb.
  - intros t Ht Hne. rewrite Hold by done. by apply list_lookup_insert_ne.
Qed.

Lemma setWeights_channels_first_witness :
  ∃ this1 w1 Wo1 o,
    setWeights example_layer_th [1; 2]%nat example_world_th = Ok (this1, w1)
    ∧ tens w1 !! 1%nat = Some Wo1
    ∧ shape (tensor Wo1) = [3; 3; 1; 1]
    ∧ tens w1 !! 3%nat = Some o
    ∧ nd_get w1 (tensor o) [5; 0] = Num 6.
Proof.
  destruct (setWeights_channels_first example_layer_th [1; 2]%nat example_world_th
              1%nat (plain_tensor 1 [1; 1; 3; 3] false) 1 1 3 3
              eq_refl eq_refl eq_refl eq_refl eq_refl eq_refl ltac:(simpl; lia)
              ltac:(lia) ltac:(lia) ltac:(lia) ltac:(lia))
    as (this1 & w1 & Wo1 & o & Hrun & _ & HW1 & _ & Hsh1 & _ & Ho & _ & Hv & _).
  exists this1, w1, Wo1, o. split; [exact Hrun|]. split; [exact HW1|].
  split; [exact Hsh1|]. split; [exact Ho|].
  exact (Hv 1 2 0 0 ltac:(lia) ltac:(lia) ltac:(lia) ltac:(lia)).
Defined.



(** ** The layer in channels-first order *)




(** ** The two backends *)






(** ** The geometry and the loops *)

(** X11.  The output shape that [_calcOutputShape] records is the number
    of window positions that the loops of [_im2col] visit on the padded
    input.  With positive sizes and strides, and the kernel no larger than
    the input in valid mode, each output size is at least one, the last
    window ends inside the padded input, and one more stride would leave
    it; the padding before the data is never more than the padding
    after. *)
Theorem calcOutputShape_counts_windows (this : Layer) (x : tref) (w : World)
    (xo : TensorObj) (H Wd F kR kC s0 s1 : Z) :
  tens w !! x = Some xo →
  shape (tensor xo) !! 0%nat = Some H →
  shape (tensor xo) !! 1%nat = Some Wd →
  kernelShape this = (F, kR, kC) →
  subsample this = (s0, s1) →
  0 < kR → 0 < kC → 0 < s0 → 0 < s1 → 0 < H → 0 < Wd →
  (borderMode this = "valid" ∧ kR ≤ H ∧ kC ≤ Wd) ∨ borderMode this = "same" →
  ∃ this' oR oC pT pB pL pR,
    _calcOutputShape this x w = Ok (this', w)
    ∧ outputShape this' = Some (oR, oC, F)
    ∧ inputPadding this' = Some (pT, pB, pL, pR)
    ∧ 1 ≤ oR ∧ 1 ≤ oC
    ∧ 0 ≤ pT ≤ pB ∧ 0 ≤ pL ≤ pR
    ∧ (oR - 1) * s0 + kR ≤ H + pT + pB < oR * s0 + kR
    ∧ (oC - 1) * s1 + kC ≤ Wd + pL + pR < oC * s1 + kC
    ∧ rounds (H + pT + pB - kR) s0 = oR
    ∧ rounds (Wd + pL + pR - kC) s1 = oC.
Proof.
  intros Hx H0 H1 Hk Hs HkR HkC Hs0 Hs1 HH HW Hmode.
  pose proof (calcOutputShape_run this x w xo H Wd F kR kC s0 s1 Hx H0 H1 Hk Hs Hs0 Hs1
                ltac:(tauto)) as Hcalc.
  cbn zeta in Hcalc.
  set (oR := out_size (borderMode this) H kR s0) in *.
  set (oC := out_size (borderMode this) Wd kC s1) in *.
  set (padR := pad_total (borderMode this) H kR s0) in *.
  set (padC := pad_total (borderMode this) Wd kC s1) in *.
  destruct (geometry_mode (borderMode this) H kR s0 Hs0 HH HkR) as (HpR & HoR & HrR & HfR);
    [tauto|].
  destruct (geometry_mode (borderMode this) Wd kC s1 Hs1 HW HkC) as (HpC & HoC & HrC & HfC);
    [tauto|].
  fold oR padR in HpR, HoR, HrR, HfR. fold oC padC in HpC, HoC, HrC, HfC.
  pose proof (Z.div_mod padR 2 ltac:(lia)). pose proof (Z.mod_pos_bound padR 2 ltac:(lia)).
  pose proof (Z.div_mod padC 2 ltac:(lia)). pose proof (Z.mod_pos_bound padC 2 ltac:(lia)).
  destruct (rounds_spec (H + padR - kR) s0 Hs0) as (_ & HuR & _).
  destruct (rounds_spec (Wd + padC - kC) s1 Hs1) as (_ & HuC & _).
  rewrite HrR in HuR. rewrite HrC in HuC.
  eexists _, oR, oC, _, _, _, _. split; [exact Hcalc|].
  split; [reflexivity|]. split; [reflexivity|].
  replace (H + padR `div` 2 + (padR - padR `div` 2)) with (H + padR) by lia.
  replace (Wd + padC `div` 2 + (padC - padC `div` 2)) with (Wd + padC) by lia.
  split_and!; try done; lia.
Qed.

Lemma calcOutputShape_counts_windows_witness :
  ∃ this' oR oC pT pB pL pR,
    _calcOutputShape example_layer_same 0%nat (example_world false)
      = Ok (this', example_world false)
    ∧ outputShape this' = Some (oR, oC, 1)
    ∧ inputPadding this' = Some (pT, pB, pL, pR)
    ∧ 1 ≤ oR
    ∧ (oR - 1) * 1 + 3 ≤ 5 + pT + pB < oR * 1 + 3
    ∧ rounds (5 + pT + pB - 3) 1 = oR.
Proof.
  destruct (calcOutputShape_counts_windows example_layer_same 0%nat (example_world false)
              (plain_tensor 0 [5; 5; 1] false) 5 5 1 3 3 1 1
              eq_refl eq_refl eq_refl eq_refl eq_refl
              ltac:(lia) ltac:(lia) ltac:(lia) ltac:(lia) ltac:(lia) ltac:(lia)
              ltac:(right; reflexivity))
    as (this' & oR & oC & pT & pB & pL & pR & Hrun & Hos & Hpad & HoR & _ & _ & _ & HwR & _
        & HrR & _).
  exists this', oR, oC, pT, pB, pL, pR.
  split; [exact Hrun|]. split; [exact Hos|]. split; [exact Hpad|].
  split; [exact HoR|]. split; [exact HwR|exact HrR].
Defined.

(** ** Assigning no weights *)

(** X12.  [setWeights] with a list that has no first entry throws a
    [TypeError], in either axis order and whatever the store: in
    channels-first order when it reads the tensor to transpose, otherwise
    when [_w2row] reads the weights it has just stored. *)
Theorem setWeights_without_W (this : Layer) (ws : list tref) (w : World) :
  ws !! 0%nat = None →
  setWeights this ws w = Throw "TypeError".
Proof.
  intros Hnone. unfold setWeights, super_setWeights, _w2row, mbind, M_bind.
  rewrite Hnone. by case_bool_decide.
Qed.

Lemma setWeights_without_W_witness :
  setWeights example_layer [] (example_world false) = Throw "TypeError".
Proof. apply (setWeights_without_W example_layer [] (example_world false)). reflexivity. Defined.

Lemma call_ignores_recorded_geometry_witness :
  ∃ l w0 l1 w,
    example_loaded false = Some (l, w0)
    ∧ call l 0%nat w0 = Ok (0%nat, l1, w)
    ∧ call l1 0%nat w = call l 0%nat w.
Proof.
  let res := eval vm_compute in (example_loaded false) in
  lazymatch res with
  | Some (?l, ?w0) =>
      let res2 := eval vm_compute in (call l 0%nat w0) in
      lazymatch res2 with
      | Ok (?r, ?l1, ?w) =>
          exists l, w0, l1, w;
          assert (Hrun : call l 0%nat w0 = Ok (r, l1, w)) by (vm_compute; reflexivity);
          split; [vm_compute; reflexivity|];
          split; [exact Hrun|];
          exact (proj2 (call_ignores_recorded_geometry l 0%nat w (0, 0, 0) (0, 0, 0, 0))
                   0%nat w0 r l1 Hrun)
      end
  end.
Defined.

(** X13.  In same mode with strides [(1, 1)] the output keeps the
    spatial size of the input, whatever the kernel: [_calcOutputShape]
    records the output shape [(H, W, F)] and a total padding of
    [nbRow - 1] rows and [nbCol - 1] columns, the smaller half before the
    data. *)
Theorem same_mode_stride_one (this : Layer) (x : tref) (w : World) (xo : TensorObj)
    (H Wd F kR kC : Z) :
  tens w !! x = Some xo →
  shape (tensor xo) !! 0%nat = Some H →
  shape (tensor xo) !! 1%nat = Some Wd →
  kernelShape this = (F, kR, kC) →
  subsample this = (1, 1) →
  borderMode this = "same" →
  1 ≤ kR → 1 ≤ kC →
  ∃ this',
    _calcOutputShape this x w = Ok (this', w)
    ∧ outputShape this' = Some (H, Wd, F)
    ∧ inputPadding this'
      = Some ((kR - 1) / 2, kR - 1 - (kR - 1) / 2, (kC - 1) / 2, kC - 1 - (kC - 1) / 2).
Proof.
  intros Hx H0 H1 Hk Hs Hm HkR HkC.
  pose proof (calcOutputShape_run this x w xo H Wd F kR kC 1 1 Hx H0 H1 Hk Hs
                ltac:(lia) ltac:(lia) ltac:(by right)) as Hcalc.
  cbn zeta in Hcalc. rewrite Hm in Hcalc.
  rewrite !pad_total_same, !out_size_same in Hcalc.
  assert (Hc1 : ∀ n, ceil_div n 1 = n).
  { intros n. unfold ceil_div. rewrite Z.div_1_r. lia. }
  rewrite !Hc1 in Hcalc.
  replace (Z.max 0 ((H - 1) * 1 + kR - H)) with (kR - 1) in Hcalc by lia.
  replace (Z.max 0 ((Wd - 1) * 1 + kC - Wd)) with (kC - 1) in Hcalc by lia.
  eexists. split; [exact Hcalc|]. done.
Qed.

Lemma same_mode_stride_one_witness :
  ∃ this',
    _calcOutputShape example_layer_same 0%nat (example_world false)
      = Ok (this', example_world false)
    ∧ outputShape this' = Some (5, 5, 1)
    ∧ inputPadding this' = Some (1, 1, 1, 1).
Proof.
  exact (same_mode_stride_one example_layer_same 0%nat (example_world false)
           (plain_tensor 0 [5; 5; 1] false) 5 5 1 3 3
           eq_refl eq_refl eq_refl eq_refl eq_refl eq_refl ltac:(lia) ltac:(lia)).
Defined.

(** ** The channel count of the weights *)



(** ** The cache and the weights *)


